(** * Netflix ETL cleaner: a shallow embedding of [netflix_movies.py]

    The development follows the source file top to bottom: Python strings
    and the two cleaning helpers ([clean_text_basic], [clean_genres]), the
    cell values and the table (a pandas [DataFrame]: column names, and rows
    that carry their index label), then the ten numbered stages of [main].

    What belongs to Python, pandas or NumPy rather than to the repository and
    has no small closed form (the [repr] of a finite float, the number
    parser of [pd.to_numeric], the Unicode case tables, the tie order of
    NumPy's default [quicksort]) is collected in one record, [PyLib], that
    the pipeline takes as an argument.  Theorems hold for every such
    library; [ref_lib] is a concrete instance used to run examples. *)

From Stdlib Require Import ZArith NArith List Bool Lia Ascii String DecimalString SpecFloat Permutation Sorted.
From stdpp Require Import base strings gmap list sorting.

Local Open Scope N_scope.

(** ** Python strings *)

(** A Python [str] is a sequence of Unicode code points. *)
Definition char := N.
Definition pystr := list char.

(** [py "abc"] is the Python literal ["abc"] (each byte of the Rocq string is
    read as the code point of the same number). *)
Fixpoint py (s : string) : pystr :=
  match s with
  | EmptyString => []
  | String a s' => N_of_ascii a :: py s'
  end.

Arguments py : simpl never.

Definition CR : char := 13.
Definition LF : char := 10.
Definition SPACE : char := 32.
Definition COMMA : char := 44.
Definition SEMICOLON : char := 59.

(** [str.isspace] of one code point, also the class [\s] of [re] on [str]
    patterns and the characters removed by [str.strip()]. *)
Definition is_space (c : char) : bool :=
  ((9 <=? c) && (c <=? 13)) || ((28 <=? c) && (c <=? 32))
  || (c =? 133) || (c =? 160) || (c =? 5760)
  || ((8192 <=? c) && (c <=? 8202))
  || (c =? 8232) || (c =? 8233) || (c =? 8239) || (c =? 8287) || (c =? 12288).

(** The class [[\r\n]]. *)
Definition is_crlf (c : char) : bool := (c =? CR) || (c =? LF).

(** Code points that [encode('ascii', 'ignore')] keeps. *)
Definition is_ascii (c : char) : bool := c <? 128.

(** The printable 7-bit characters, space to tilde. *)
Definition is_printable_ascii (c : char) : bool := (32 <=? c) && (c <=? 126).

Fixpoint lstrip (s : pystr) : pystr :=
  match s with
  | [] => []
  | c :: s' => if is_space c then lstrip s' else s
  end.

Fixpoint rstrip (s : pystr) : pystr :=
  match s with
  | [] => []
  | c :: s' =>
      match rstrip s' with
      | [] => if is_space c then [] else [c]
      | t => c :: t
      end
  end.

(** [s.strip()] *)
Definition str_strip (s : pystr) : pystr := rstrip (lstrip s).

(** [re.sub(r'[p]+', ' ', s)]: every maximal run of characters of the class
    [p] becomes one space.  [inrun] records that the previous character
    belonged to the run being replaced. *)
Fixpoint sub_runs_from (p : char -> bool) (inrun : bool) (s : pystr) : pystr :=
  match s with
  | [] => []
  | c :: s' =>
      if p c then
        if inrun then sub_runs_from p true s'
        else SPACE :: sub_runs_from p true s'
      else c :: sub_runs_from p false s'
  end.

Definition sub_runs (p : char -> bool) (s : pystr) : pystr :=
  sub_runs_from p false s.

(** [s.replace(a, b)] for single characters. *)
Definition replace_char (a b : char) (s : pystr) : pystr :=
  map (fun c => if c =? a then b else c) s.

(** [s.encode('ascii', 'ignore').decode('utf-8')] *)
Definition ascii_ignore (s : pystr) : pystr := List.filter is_ascii s.

(** [re.sub(r'\s*;\s*', '; ', s)]: a semicolon is rewritten together with
    the whitespace around it.  [pending] holds a whitespace run that is
    emitted unchanged unless a semicolon follows it; [after] says that the
    previous match ended just before the current character, so that
    whitespace here still belongs to that match. *)
Fixpoint sub_semicolons_from (pending : pystr) (after : bool) (s : pystr) : pystr :=
  match s with
  | [] => pending
  | c :: s' =>
      if c =? SEMICOLON then SEMICOLON :: SPACE :: sub_semicolons_from [] true s'
      else if is_space c then
        if after then sub_semicolons_from [] true s'
        else sub_semicolons_from (pending ++ [c]) false s'
      else pending ++ c :: sub_semicolons_from [] false s'
  end.

Definition sub_semicolons (s : pystr) : pystr := sub_semicolons_from [] false s.

(** Case mapping on the ASCII letters. *)
Definition is_upper_ascii (c : char) : bool := (65 <=? c) && (c <=? 90).
Definition is_lower_ascii (c : char) : bool := (97 <=? c) && (c <=? 122).
Definition lower_ascii (c : char) : char := if is_upper_ascii c then c + 32 else c.
Definition upper_ascii (c : char) : char := if is_lower_ascii c then c - 32 else c.

(** [str.title] on an ASCII string: a letter is upper-cased when the
    character before it is not a letter, lower-cased otherwise. *)
Fixpoint title_ascii_from (prev_cased : bool) (s : pystr) : pystr :=
  match s with
  | [] => []
  | c :: s' =>
      (if prev_cased then lower_ascii c else upper_ascii c)
        :: title_ascii_from (is_upper_ascii c || is_lower_ascii c) s'
  end.

(** Decimal digits of an integer, as [str(int)] prints them. *)
Definition str_of_Z (z : Z) : pystr :=
  py (DecimalString.NilZero.string_of_int (Z.to_int z)).

(** ** Floating-point numbers

    A pandas [float64] is an IEEE 754 binary64 number: [spec_float] with 53
    bits of precision and maximal exponent 1024. *)

Definition float := spec_float.
Definition NaN : float := S754_nan.

Definition float_of_Z (z : Z) : float := binary_normalize 53 1024 z 0 false.
Definition float_add : float -> float -> float := SFadd 53 1024.
Definition float_div : float -> float -> float := SFdiv 53 1024.
Definition float_leb : float -> float -> bool := SFleb.

Definition is_nan (f : float) : bool :=
  match f with S754_nan => true | _ => false end.

Definition is_finite (f : float) : bool :=
  match f with S754_zero _ | S754_finite _ _ _ => true | _ => false end.

(** The integer part of a finite float (truncation toward zero). *)
Definition float_trunc (f : float) : Z :=
  match f with
  | S754_finite s m e => cond_Zopp s (Z.shiftl (Zpos m) e)
  | _ => 0%Z
  end.

(** *** 64-bit integers

    A NumPy [int64] holds the integers from [-2^63] to [2^63 - 1], a
    [uint64] those from [0] to [2^64 - 1]. *)
Definition int64_min : Z := (- 2 ^ 63)%Z.

Definition in_int64 (z : Z) : bool := ((- 2 ^ 63 <=? z) && (z <? 2 ^ 63))%Z.

(** The cast [float64 -> int64] of a finite float: its integer part, or,
    when that does not fit, the value [-2^63] that the conversion
    instruction of x86-64 answers with. *)
Definition int64_of_float (f : float) : Z :=
  if in_int64 (float_trunc f) then float_trunc f else int64_min.

(** The cast [uint64 -> int64] keeps the 64 bits: it wraps at [2^63]. *)
Definition wrap_int64 (z : Z) : Z := ((z + 2 ^ 63) mod 2 ^ 64 - 2 ^ 63)%Z.

(** ** Results of code that can raise *)

Inductive exn := ValueError | OverflowError | IntCastingNaNError | IndexError.

Inductive result (A : Type) :=
  | OK (a : A)
  | Raise (e : exn).
Arguments OK {A} a.
Arguments Raise {A} e.

Global Instance result_ret : MRet result := @OK.
Global Instance result_bind : MBind result := fun A B f m =>
  match m with
  | OK a => f a
  | Raise e => Raise e
  end.

Global Instance result_fmap : FMap result := fun A B f m =>
  match m with
  | OK a => OK (f a)
  | Raise e => Raise e
  end.

(** Run [f] on the elements from left to right, stopping at the first
    exception. *)
Fixpoint traverse {A B : Type} (f : A -> result B) (l : list A) : result (list B) :=
  match l with
  | [] => OK []
  | x :: l' => y ← f x; ys ← traverse f l'; OK (y :: ys)
  end.

(** [int(x)] on a Python float. *)
Definition py_int (f : float) : result Z :=
  match f with
  | S754_nan => Raise ValueError
  | S754_infinity _ => Raise OverflowError
  | _ => OK (float_trunc f)
  end.

(** ** Cell values *)

(** What a cell of the table can hold: a [str], an integer, a float (the
    float NaN is how [read_csv] marks an empty field), [None], or [pd.NA]. *)
Inductive value :=
  | VStr (s : pystr)
  | VInt (z : Z)
  | VFloat (f : float)
  | VNone
  | VNA.

Global Instance spec_float_eq_dec : EqDecision spec_float.
Proof. solve_decision. Defined.
Global Instance value_eq_dec : EqDecision value.
Proof. solve_decision. Defined.

Global Instance value_inhabited : Inhabited value := populate (VFloat S754_nan).

(** [pd.isna(x)] on a scalar. *)
Definition isna (v : value) : bool :=
  match v with
  | VFloat f => is_nan f
  | VNone | VNA => true
  | _ => false
  end.

(** A number as [pd.to_numeric] produces it. *)
Inductive number :=
  | NumInt (z : Z)
  | NumFloat (f : float).

Definition num_to_float (n : number) : float :=
  match n with
  | NumInt z => float_of_Z z
  | NumFloat f => f
  end.

(** How [pd.to_numeric] classes the integers of an object column: signed
    ones, those that only [uint64] holds, and those that fit one of the two
    64-bit types at all. *)
Definition is_sint (n : number) : bool :=
  match n with NumInt z => ((- 2 ^ 63 <=? z) && (z <? 0))%Z | NumFloat _ => false end.

Definition is_uint (n : number) : bool :=
  match n with NumInt z => ((2 ^ 63 <=? z) && (z <? 2 ^ 64))%Z | NumFloat _ => false end.

Definition is_null (n : number) : bool :=
  match n with NumInt _ => false | NumFloat f => is_nan f end.

Definition fits_64 (n : number) : bool :=
  match n with NumInt z => ((- 2 ^ 63 <=? z) && (z <? 2 ^ 64))%Z | NumFloat _ => false end.

(** ** The library context *)

Record PyLib := {
  (** [repr] of a finite float *)
  float_repr : float -> pystr;
  (** the conversion of one [str] by [pd.to_numeric]; [None] when the string
      is not a number *)
  parse_number : pystr -> option number;
  (** [str.lower] and [str.title] on a string that is not pure ASCII *)
  unicode_lower : pystr -> pystr;
  unicode_title : pystr -> pystr;
  (** [numpy.argsort(kind='quicksort')] on a column of keys *)
  argsort_quicksort : list value -> list nat;
}.

(** ** The table *)

(** A row keeps the label it has in the index of the [DataFrame]; filters
    and sorts move or drop rows but never relabel them. *)
Record Row := mkRow {
  label : nat;
  cells : gmap pystr value;
}.

Record DataFrame := mkDF {
  columns : list pystr;
  rows : list Row;
}.

(** [row[c]]; a field that the row does not carry reads as NaN, the way
    [read_csv] fills a short line. *)
Definition cell (r : Row) (c : pystr) : value := default (VFloat NaN) (cells r !! c).

Definition set_cell (r : Row) (c : pystr) (v : value) : Row :=
  mkRow (label r) (<[c := v]> (cells r)).

(** [c in df.columns] *)
Definition has_column (df : DataFrame) (c : pystr) : bool := bool_decide (c ∈ columns df).

(** [[c for c in names if c in df.columns]] *)
Definition existing (df : DataFrame) (names : list pystr) : list pystr :=
  List.filter (has_column df) names.

(** [df[c] = df[c].apply(f)] *)
Definition apply_column (c : pystr) (f : value -> value) (df : DataFrame) : DataFrame :=
  mkDF (columns df) (map (fun r => set_cell r c (f (cell r c))) (rows df)).

(** [df = df.applymap(f)], cell by cell.  pandas then infers the dtype of
    each column again: in a column left with numbers only, an integer that
    stands next to a float is stored as that float.  The table keeps the
    value as it was mapped; what the statements below say of a cell that is
    not a string allows for the other storage ([retyped]). *)
Definition applymap (f : value -> value) (df : DataFrame) : DataFrame :=
  mkDF (columns df) (map (fun r => mkRow (label r) (f <$> cells r)) (rows df)).

(** [df = df[mask]] where the mask is computed row by row *)
Definition filter_rows (keep : Row -> bool) (df : DataFrame) : DataFrame :=
  mkDF (columns df) (List.filter keep (rows df)).

(** [df.drop(columns=names)] *)
Definition drop_columns (names : list pystr) (df : DataFrame) : DataFrame :=
  mkDF (List.filter (fun c => negb (bool_decide (c ∈ names))) (columns df))
       (map (fun r => mkRow (label r) (foldr delete (cells r) names)) (rows df)).

(** [df.empty]: no rows or no columns *)
Definition df_empty (df : DataFrame) : bool :=
  match columns df, rows df with
  | [], _ | _, [] => true
  | _, _ => false
  end.

(** The values of a row on a list of columns: the key of
    [drop_duplicates(subset=...)] and of [sort_values(by=...)]. *)
Definition row_key (by_ : list pystr) (r : Row) : list value := map (cell r) by_.

(** ** Column names and literals of the script *)

Definition c_type := py "type".
Definition c_show_id := py "show_id".
Definition c_title := py "title".
Definition c_director := py "director".
Definition c_cast := py "cast".
Definition c_country := py "country".
Definition c_listed_in := py "listed_in".
Definition c_duration := py "duration".
Definition c_release_year := py "release_year".

Definition drop_cols : list pystr := [py "description"; py "rating"; py "date_added"].
Definition sentinels : list pystr := [py "\N"; py "N/A"; py "NULL"; py "None"; py "?"].
Definition critical : list pystr := [c_show_id; c_title].
Definition fill_defaults : list (pystr * pystr) :=
  [(c_director, py "Unknown"); (c_cast, py "Unknown"); (c_country, py "Unknown");
   (c_listed_in, py "Unknown"); (c_duration, py "Unknown")].
Definition text_columns : list pystr := [c_title; c_director; c_cast; c_country; c_duration].
Definition dedup_columns : list pystr := [c_title; c_director; c_release_year].
Definition sort_columns : list pystr := [c_release_year; c_title].

(** ** Ordering of sort keys

    [release_year] holds integers and [title] holds strings when the sort
    runs; integers compare by value and strings lexicographically by code
    point.  Values of different kinds are ranked by kind so that the
    comparison stays total. *)

Fixpoint str_compare (a b : pystr) : comparison :=
  match a, b with
  | [], [] => Eq
  | [], _ :: _ => Lt
  | _ :: _, [] => Gt
  | x :: a', y :: b' =>
      match N.compare x y with
      | Eq => str_compare a' b'
      | o => o
      end
  end.

Definition value_rank (v : value) : nat :=
  match v with
  | VInt _ => 0 | VFloat _ => 1 | VStr _ => 2 | VNone => 3 | VNA => 4
  end%nat.

Definition value_compare (a b : value) : comparison :=
  match a, b with
  | VInt x, VInt y => Z.compare x y
  | VStr x, VStr y => str_compare x y
  | _, _ => Nat.compare (value_rank a) (value_rank b)
  end.

Fixpoint key_compare (a b : list value) : comparison :=
  match a, b with
  | [], [] => Eq
  | [], _ :: _ => Lt
  | _ :: _, [] => Gt
  | x :: a', y :: b' =>
      match value_compare x y with
      | Eq => key_compare a' b'
      | o => o
      end
  end.

Definition key_leb (a b : list value) : bool :=
  match key_compare a b with Gt => false | _ => true end.

Definition value_ltb (a b : value) : bool :=
  match value_compare a b with Lt => true | _ => false end.

(** ** The cleaning helpers and the pipeline *)

Section Pipeline.

Variable L : PyLib.

(** [str(x)] *)
Definition py_str (v : value) : pystr :=
  match v with
  | VStr s => s
  | VInt z => str_of_Z z
  | VFloat S754_nan => py "nan"
  | VFloat (S754_infinity false) => py "inf"
  | VFloat (S754_infinity true) => py "-inf"
  | VFloat f => float_repr L f
  | VNone => py "None"
  | VNA => py "<NA>"
  end.

(** [s.lower()] and [s.title()] *)
Definition str_lower (s : pystr) : pystr :=
  if forallb is_ascii s then map lower_ascii s else unicode_lower L s.

Definition str_title (s : pystr) : pystr :=
  if forallb is_ascii s then title_ascii_from false s else unicode_title L s.

(** [clean_text_basic(text)] *)
Definition clean_text_basic (text : value) : pystr :=
  if isna text then []
  else
    let text := str_strip (py_str text) in
    let text := sub_runs is_crlf text in
    let text := sub_runs is_space text in
    let text := replace_char COMMA SEMICOLON text in
    ascii_ignore text.

(** [clean_genres(text)] *)
Definition clean_genres (text : value) : pystr :=
  if isna text then py "Unknown"
  else
    let text := str_strip (str_lower (py_str text)) in
    let text := replace_char COMMA SEMICOLON text in
    let text := sub_semicolons text in
    str_title text.

(** *** 2. Drop unused columns *)
Definition drop_unused_columns (df : DataFrame) : DataFrame :=
  drop_columns (existing df drop_cols) df.

(** *** 3. Keep only movies *)

(** [df["type"].astype(str).str.strip().str.lower()], element by element *)
Definition normalize_type (v : value) : value :=
  VStr (str_lower (str_strip (py_str v))).

Definition is_movie (r : Row) : bool := bool_decide (cell r c_type = VStr (py "movie")).

Definition keep_only_movies (df : DataFrame) : DataFrame :=
  if has_column df c_type then
    filter_rows is_movie (apply_column c_type normalize_type df)
  else df.

(** *** 4. Standardize strings *)

(** [lambda x: x.strip() if isinstance(x, str) else x] *)
Definition strip_if_str (v : value) : value :=
  match v with
  | VStr s => VStr (str_strip s)
  | _ => v
  end.

(** one cell under [df.replace(["\\N", "N/A", "NULL", "None", "?"], pd.NA)] *)
Definition replace_sentinel (v : value) : value :=
  match v with
  | VStr s => if bool_decide (s ∈ sentinels) then VNA else v
  | _ => v
  end.

Definition standardize_strings (df : DataFrame) : DataFrame :=
  applymap replace_sentinel (applymap strip_if_str df).

(** *** 5. Handle missing values *)

(** [df.dropna(subset=cols)] *)
Definition dropna (cols : list pystr) (df : DataFrame) : DataFrame :=
  filter_rows (fun r => forallb (fun c => negb (isna (cell r c))) cols) df.

(** [df[col].fillna(val)] on one cell *)
Definition fillna (val : value) (v : value) : value := if isna v then val else v.

(** the loop over [fill_defaults.items()]; [df[col].fillna(val, inplace=True)]
    writes through to [df] in the pandas versions that have [applymap] *)
Definition fill_missing (df : DataFrame) : DataFrame :=
  fold_left
    (fun df cv => if has_column df cv.1 then apply_column cv.1 (fillna (VStr cv.2)) df else df)
    fill_defaults df.

Definition handle_missing (df : DataFrame) : DataFrame :=
  fill_missing (dropna (existing df critical) df).

(** *** 6. Remove rows whose cast is unknown *)

Definition cast_known (r : Row) : bool :=
  match cell r c_cast with
  | VStr s => negb (bool_decide (str_lower s = py "unknown"))
  | _ => true
  end.

Definition remove_unknown_cast (df : DataFrame) : DataFrame :=
  if has_column df c_cast then
    filter_rows cast_known (apply_column c_cast (fun v => VStr (py_str v)) df)
  else df.

(** *** 7. Clean the numeric column *)

(** one cell under [pd.to_numeric(..., errors="coerce")]: a number stays,
    a string is parsed, anything else and any failure is NaN *)
Definition to_numeric (v : value) : number :=
  match v with
  | VInt z => NumInt z
  | VFloat f => NumFloat f
  | VStr s =>
      match parse_number L s with
      | Some n => n
      | None => NumFloat NaN
      end
  | VNone | VNA => NumFloat NaN
  end.

Fixpoint insert_float (x : float) (l : list float) : list float :=
  match l with
  | [] => [x]
  | y :: l' => if float_leb x y then x :: l else y :: insert_float x l'
  end.

Definition sort_floats (l : list float) : list float := foldr insert_float [] l.

(** [Series.median()] of a column without NaN: the middle value, or the mean
    of the two middle values. *)
Definition median (l : list float) : float :=
  let s := sort_floats l in
  let n := length s in
  if Nat.even n then
    float_div (float_add (nth (n / 2 - 1) s NaN) (nth (n / 2) s NaN)) (float_of_Z 2)
  else nth (n / 2) s NaN.

(** [int(col.dropna().median()) if not col.dropna().empty else 2000] *)
Definition median_year (col : list number) : result Z :=
  match List.filter (fun f => negb (is_nan f)) (map num_to_float col) with
  | [] => OK 2000%Z
  | present => py_int (median present)
  end.

(** [astype(int)] on one element of a [float64] column: pandas refuses a
    column with a value that is not finite, and leaves the rest to NumPy's
    cast. *)
Definition astype_int (f : float) : result Z :=
  if is_finite f then OK (int64_of_float f) else Raise IntCastingNaNError.

(** The dtype of the converted column.  [pd.to_numeric] gives up, and hands
    the column back as it was, when an integer above [2^63 - 1] meets a
    missing value or a negative integer ([check_uint64_conflict]).
    Otherwise the column is [int64] or [uint64] when every value is an
    integer that fits 64 bits, and [float64] in every other case. *)
Definition uint64_conflict (col : list number) : bool :=
  existsb is_uint col && (existsb is_null col || existsb is_sint col).

Definition integer_dtype (col : list number) : bool := forallb fits_64 col.

(** One cell through [fillna(median_year)] and [astype(int)].  In an
    integer column nothing is missing and the cast keeps the 64 bits of the
    value (an [int64] is unchanged, a [uint64] wraps); in a [float64]
    column the fill value is stored as a float and the cast truncates. *)
Definition coerce_year (int_dtype : bool) (year : Z) (n : number) : result value :=
  match n with
  | NumInt z =>
      if int_dtype then OK (VInt (wrap_int64 z)) else VInt <$> astype_int (float_of_Z z)
  | NumFloat f =>
      VInt <$> astype_int (if is_nan f then float_of_Z year else f)
  end.

(** On a column that [pd.to_numeric] handed back unconverted, the cast to
    [int] (or, with strings left in it, the median) raises. *)
Definition clean_release_year (df : DataFrame) : result DataFrame :=
  if has_column df c_release_year then
    let col := map (fun r => to_numeric (cell r c_release_year)) (rows df) in
    if uint64_conflict col then Raise OverflowError
    else
      year ← median_year col;
      rows' ← traverse
        (fun r => v ← coerce_year (integer_dtype col) year (to_numeric (cell r c_release_year));
                  OK (set_cell r c_release_year v))
        (rows df);
      OK (mkDF (columns df) rows')
  else OK df.

(** *** 8. Text and genre normalization *)

Definition normalize_text (df : DataFrame) : DataFrame :=
  let df := fold_left (fun df c => apply_column c (fun v => VStr (clean_text_basic v)) df)
                      (existing df text_columns) df in
  if has_column df c_listed_in then
    apply_column c_listed_in (fun v => VStr (clean_genres v)) df
  else df.

(** *** 9. Remove duplicates *)

(** keep the first row of every key, in table order *)
Fixpoint keep_first (key : Row -> list value) (seen : list (list value)) (l : list Row) : list Row :=
  match l with
  | [] => []
  | r :: l' =>
      if bool_decide (key r ∈ seen) then keep_first key seen l'
      else r :: keep_first key (key r :: seen) l'
  end.

(** [df.drop_duplicates(subset=subset, keep="first", inplace=True)].  An
    empty frame is returned as it is; on a frame with rows, pandas unpacks
    the per-column factorization of the subset into two lists and raises
    [ValueError] when the subset has no column. *)
Definition drop_duplicates (subset : list pystr) (df : DataFrame) : result DataFrame :=
  if df_empty df then OK df
  else
    match subset with
    | [] => Raise ValueError
    | _ => OK (mkDF (columns df) (keep_first (row_key subset) [] (rows df)))
    end.

Definition remove_duplicates (df : DataFrame) : result DataFrame :=
  drop_duplicates (existing df dedup_columns) df.

(** *** 10. Sort and format *)

(** the stable multi-key ordering ([lexsort_indexer]) *)
Fixpoint insert_row (by_ : list pystr) (r : Row) (l : list Row) : list Row :=
  match l with
  | [] => [r]
  | x :: l' =>
      if key_leb (row_key by_ r) (row_key by_ x) then r :: l
      else x :: insert_row by_ r l'
  end.

Definition lexsort (by_ : list pystr) (l : list Row) : list Row :=
  foldr (insert_row by_) [] l.

(** [df.take(indexer)] *)
Definition take_rows (indexer : list nat) (l : list Row) : result (list Row) :=
  traverse (fun i => match l !! i with Some r => OK r | None => Raise IndexError end) indexer.

(** [df.sort_values(by=by_)] with the default [kind='quicksort'], which
    pandas applies when sorting on a single column; several columns go
    through the stable [lexsort_indexer]. *)
Definition sort_values (by_ : list pystr) (df : DataFrame) : result DataFrame :=
  match by_ with
  | [] => OK df
  | [c] =>
      rows' ← take_rows (argsort_quicksort L (map (fun r => cell r c) (rows df))) (rows df);
      OK (mkDF (columns df) rows')
  | _ => OK (mkDF (columns df) (lexsort by_ (rows df)))
  end.

(** one cell under [df.replace({r'[\r\n]+': ' ', ',': ' '}, regex=True)]:
    the two substitutions in the order of the dict (pandas decides which
    cells each one visits before it applies the first, which changes
    nothing since the first neither adds nor removes a comma) *)
Definition escape_cell (v : value) : value :=
  match v with
  | VStr s => VStr (replace_char COMMA SPACE (sub_runs is_crlf s))
  | _ => v
  end.

Definition sort_stage (df : DataFrame) : result DataFrame :=
  match existing df sort_columns with
  | [] => OK df
  | sort_cols => sort_values sort_cols df
  end.

Definition reescape (df : DataFrame) : DataFrame :=
  applymap strip_if_str (applymap escape_cell df).

Definition sort_and_format (df : DataFrame) : result DataFrame :=
  df ← sort_stage df;
  OK (reescape df).

(** *** The pipeline, from the loaded table to the table that is written *)

Definition before_fill (df : DataFrame) : DataFrame :=
  let df := standardize_strings (keep_only_movies (drop_unused_columns df)) in
  dropna (existing df critical) df.

Definition main (df : DataFrame) : result DataFrame :=
  let df := drop_unused_columns df in
  let df := keep_only_movies df in
  let df := standardize_strings df in
  let df := handle_missing df in
  let df := remove_unknown_cast df in
  df ← clean_release_year df;
  let df := normalize_text df in
  df ← remove_duplicates df;
  sort_and_format df.

End Pipeline.

(** ** A reference library

    [ref_lib] instantiates [PyLib] so that the pipeline can be run on
    concrete tables.  Its functions cover the fragment the examples use:
    numbers written in decimal without exponent, floats of integral value
    printed with fewer than seventeen digits, strings whose cased letters
    are ASCII.  Its [argsort] follows NumPy's [npy_aquicksort], the sort
    that a column of Python objects (strings) goes through.  The theorems
    hold for every [PyLib]. *)

Module NumPy.

Local Open Scope nat_scope.

Section Argsort.

Variable v : list value.

(** [cmp(v + a*elsize, v + b*elsize, arr) < 0] *)
Definition less (a b : nat) : bool :=
  value_ltb (v !!! a) (v !!! b).

Definition less_key (a b : value) : bool := value_ltb a b.

(** [INTP_SWAP( *i, *j )] *)
Definition swap (i j : nat) (t : list nat) : list nat :=
  <[i := t !!! j]> (<[j := t !!! i]> t).

(** [do { ++pi; } while (cmp( *pi, vp ) < 0 && pi < pj);] *)
Fixpoint scan_up (fuel : nat) (t : list nat) (vp : value) (pi pj : nat) : nat :=
  match fuel with
  | 0 => pi
  | S fuel =>
      let pi := pi + 1 in
      if less_key (v !!! (t !!! pi)) vp && (pi <? pj) then scan_up fuel t vp pi pj else pi
  end.

(** [do { --pj; } while (cmp( vp, *pj ) < 0 && pi < pj);] *)
Fixpoint scan_down (fuel : nat) (t : list nat) (vp : value) (pi pj : nat) : nat :=
  match fuel with
  | 0 => pj
  | S fuel =>
      let pj := pj - 1 in
      if less_key vp (v !!! (t !!! pj)) && (pi <? pj) then scan_down fuel t vp pi pj else pj
  end.

(** the [for (;;)] loop of the partition; returns the array and [pi] *)
Fixpoint partition_loop (fuel : nat) (t : list nat) (vp : value) (pi pj : nat)
  : list nat * nat :=
  match fuel with
  | 0 => (t, pi)
  | S fuel =>
      let pi := scan_up (length t) t vp pi pj in
      let pj := scan_down (length t) t vp pi pj in
      if pj <=? pi then (t, pi) else partition_loop fuel (swap pi pj t) vp pi pj
  end.

(** the insertion sort applied to a partition of at most 17 elements *)
Fixpoint shift_down (fuel : nat) (t : list nat) (pl pj vi : nat) : list nat :=
  match fuel with
  | 0 => <[pj := vi]> t
  | S fuel =>
      if (pl <? pj) && less vi (t !!! (pj - 1))
      then shift_down fuel (<[pj := t !!! (pj - 1)]> t) pl (pj - 1) vi
      else <[pj := vi]> t
  end.

Definition insertion_sort (t : list nat) (pl pr : nat) : list nat :=
  fold_left (fun t pi => shift_down pi t pl pi (t !!! pi)) (seq (pl + 1) (pr - pl)) t.

(** [npy_aheapsort] on the [n] indices from [pl]; [a[k]] is [t[pl + k - 1]] *)
Fixpoint sift (fuel : nat) (t : list nat) (pl n tmp i j : nat) : list nat :=
  match fuel with
  | 0 => <[pl + i - 1 := tmp]> t
  | S fuel =>
      if j <=? n then
        let j := if (j <? n) && less (t !!! (pl + j - 1)) (t !!! (pl + j)) then j + 1 else j in
        if less tmp (t !!! (pl + j - 1))
        then sift fuel (<[pl + i - 1 := t !!! (pl + j - 1)]> t) pl n tmp j (j + j)
        else <[pl + i - 1 := tmp]> t
      else <[pl + i - 1 := tmp]> t
  end.

Definition heapify (t : list nat) (pl n : nat) : list nat :=
  fold_left (fun t l => sift n t pl n (t !!! (pl + l - 1)) l (2 * l))
            (rev (seq 1 (n / 2))) t.

Definition heap_extract (t : list nat) (pl n : nat) : list nat :=
  fold_left
    (fun t m =>
       let tmp := t !!! (pl + m - 1) in
       let t := <[pl + m - 1 := t !!! pl]> t in
       sift m t pl (m - 1) tmp 1 2)
    (rev (seq 2 (n - 1))) t.

Definition aheapsort (t : list nat) (pl n : nat) : list nat :=
  heap_extract (heapify t pl n) pl n.

(** the loop [while ((pr - pl) > SMALL_QUICKSORT)]: partition around the
    median of three, push the larger side, continue with the smaller *)
Fixpoint partition_while (fuel : nat) (t : list nat) (pl pr : nat) (cdepth : Z)
    (stack : list (nat * nat * Z)) : list nat * nat * nat * list (nat * nat * Z) :=
  match fuel with
  | 0 => (t, pl, pr, stack)
  | S fuel =>
      if 16 <? pr - pl then
        let pm := pl + (pr - pl) / 2 in
        let t := if less (t !!! pm) (t !!! pl) then swap pm pl t else t in
        let t := if less (t !!! pr) (t !!! pm) then swap pr pm t else t in
        let t := if less (t !!! pm) (t !!! pl) then swap pm pl t else t in
        let vp := v !!! (t !!! pm) in
        let t := swap pm (pr - 1) t in
        let '(t, pi) := partition_loop (length t) t vp pl (pr - 1) in
        let t := swap pi (pr - 1) t in
        let cdepth := (cdepth - 1)%Z in
        if pi - pl <? pr - pi
        then partition_while fuel t pl (pi - 1) cdepth ((pi + 1, pr, cdepth) :: stack)
        else partition_while fuel t (pi + 1) pr cdepth ((pl, pi - 1, cdepth) :: stack)
      else (t, pl, pr, stack)
  end.

(** the outer [while (1)] with its explicit stack *)
Fixpoint aquicksort_loop (fuel : nat) (t : list nat) (pl pr : nat) (cdepth : Z)
    (stack : list (nat * nat * Z)) : list nat :=
  match fuel with
  | 0 => t
  | S fuel =>
      let '(t, stack) :=
        if (cdepth <? 0)%Z then (aheapsort t pl (pr - pl + 1), stack)
        else
          let '(t, pl', pr', stack') := partition_while (length t) t pl pr cdepth stack in
          (insertion_sort t pl' pr', stack') in
      match stack with
      | [] => t
      | (pl, pr, cdepth) :: stack => aquicksort_loop fuel t pl pr cdepth stack
      end
  end.

End Argsort.

(** [numpy.argsort(v, kind='quicksort')] *)
Definition argsort (v : list value) : list nat :=
  let num := length v in
  aquicksort_loop v (S num) (seq 0 num) 0 (num - 1) (2 * Z.log2 (Z.of_nat num))%Z [].

End NumPy.

(** Sign, digits and an optional fraction: the decimal literals among the
    strings that [pd.to_numeric] converts. *)
Definition is_digit (c : char) : bool := (48 <=? c) && (c <=? 57).

Fixpoint digits_value (acc : Z) (s : pystr) : Z :=
  match s with
  | [] => acc
  | c :: s' => digits_value (10 * acc + Z.of_N (c - 48))%Z s'
  end.

Fixpoint split_at_dot (s : pystr) : pystr * option pystr :=
  match s with
  | [] => ([], None)
  | c :: s' =>
      if c =? 46 then ([], Some s')
      else let '(a, b) := split_at_dot s' in (c :: a, b)
  end.

Definition parse_unsigned (s : pystr) : option number :=
  match split_at_dot s with
  | (a, None) =>
      if forallb is_digit a && negb (bool_decide (a = [])) then Some (NumInt (digits_value 0 a))
      else None
  | (a, Some b) =>
      if forallb is_digit a && forallb is_digit b && negb (bool_decide (a ++ b = []))
      then Some (NumFloat (float_div (float_of_Z (digits_value 0 (a ++ b)))
                                     (float_of_Z (10 ^ Z.of_nat (length b)))))
      else None
  end.

Definition num_opp (n : number) : number :=
  match n with
  | NumInt z => NumInt (- z)
  | NumFloat f => NumFloat (SFopp f)
  end.

Definition ref_parse_number (s : pystr) : option number :=
  match str_strip s with
  | 45 :: s' => num_opp <$> parse_unsigned s'
  | 43 :: s' => parse_unsigned s'
  | s' => parse_unsigned s'
  end.

(** [repr] of a float with an integral value, such as [2001.0] *)
Definition ref_float_repr (f : float) : pystr := str_of_Z (float_trunc f) ++ py ".0".

(** Case mapping that changes the ASCII letters only: Python's result on
    strings whose other characters have no case. *)
Definition ref_lib : PyLib := {|
  float_repr := ref_float_repr;
  parse_number := ref_parse_number;
  unicode_lower := map lower_ascii;
  unicode_title := title_ascii_from false;
  argsort_quicksort := NumPy.argsort;
|}.

(** Building tables for examples: the header and the lines of a CSV file,
    labelled from 0 as [read_csv] does. *)
Definition make_row (header : list pystr) (i : nat) (line : list value) : Row :=
  mkRow i (list_to_map (zip header line)).

Definition make_table (header : list pystr) (lines : list (list value)) : DataFrame :=
  mkDF header (imap (make_row header) lines).

(** The table as a grid, for comparing results. *)
Definition to_grid (df : DataFrame) : list (nat * list value) :=
  map (fun r => (label r, row_key (columns df) r)) (rows df).

Definition grid_of (r : result DataFrame) : result (list (nat * list value)) :=
  to_grid <$> r.

(** * Vocabulary of the statements *)

Local Open Scope Z_scope.

Definition head_ok (s : pystr) : Prop :=
  match s with
  | [] => True
  | c :: _ => is_space c = false
  end.

Definition last_ok (s : pystr) : Prop :=
  match last s with
  | None => True
  | Some c => is_space c = false
  end.

(** The text before its non-ASCII characters are dropped. *)
Definition clean_core (s : pystr) : pystr :=
  replace_char COMMA SEMICOLON (sub_runs is_space (sub_runs is_crlf (str_strip s))).

Definition no_separator (s : pystr) : Prop :=
  Forall (fun ch => ch <> CR /\ ch <> LF /\ ch <> COMMA) s.

Definition escape (v : value) : value := strip_if_str (escape_cell v).

Definition standardize (v : value) : value := replace_sentinel (strip_if_str v).

(** [r'] is [r] with only the fields [cs] possibly rewritten. *)
Definition same_except (cs : list pystr) (r r' : Row) : Prop :=
  label r' = label r /\ forall c, c ∉ cs -> cell r' c = cell r c.

(** Every row of [df'] is a row of [df] with only the fields [cs] possibly
    rewritten. *)
Definition rows_from (cs : list pystr) (df df' : DataFrame) : Prop :=
  forall r', In r' (rows df') -> exists r, In r (rows df) /\ same_except cs r r'.

(** Rewriting several columns in turn, seen on one row. *)
Definition apply_all (cfs : list (pystr * (value -> value))) (r : Row) : Row :=
  fold_left (fun r cf => set_cell r cf.1 (cf.2 (cell r cf.1))) cfs r.

Definition fill_plan (df : DataFrame) : list (pystr * (value -> value)) :=
  map (fun cv : pystr * pystr => (cv.1, fillna (VStr cv.2)))
      (List.filter (fun cv : pystr * pystr => has_column df cv.1) fill_defaults).

Definition cast_as_str (L : PyLib) (v : value) : value := VStr (py_str L v).

Definition text_plan (L : PyLib) (df : DataFrame) : list (pystr * (value -> value)) :=
  map (fun c => (c, fun v => VStr (clean_text_basic L v))) (existing df text_columns).

Definition genres_step (L : PyLib) (df : DataFrame) : DataFrame :=
  if has_column df c_listed_in then
    apply_column c_listed_in (fun v => VStr (clean_genres L v)) df
  else df.

Definition after_fill (L : PyLib) (df : DataFrame) : DataFrame := fill_missing (before_fill L df).

Definition after_cast_filter (L : PyLib) (df : DataFrame) : DataFrame :=
  remove_unknown_cast L (after_fill L df).

(** The fields that the stages after the null handling may rewrite. *)
Definition late_columns : list pystr :=
  (map fst fill_defaults ++ [c_cast]) ++ [c_release_year] ++ (text_columns ++ [c_listed_in]).

Definition labels (df : DataFrame) : list nat := map label (rows df).

(** every record of [df'] carries the label of a record of [df] *)
Definition labels_within (df df' : DataFrame) : Prop :=
  forall r', In r' (rows df') -> exists r, In r (rows df) /\ label r' = label r.

Definition missing_or_sentinel (v : value) : Prop :=
  isna v = true \/ exists s, v = VStr s /\ str_strip s ∈ sentinels.

(** the column after [pd.to_numeric] *)
Definition year_numbers (L : PyLib) (df : DataFrame) : list number :=
  map (fun r => to_numeric L (cell r c_release_year)) (rows df).

(** the values that converted to a number, as floats *)
Definition present (col : list number) : list float :=
  List.filter (fun f => negb (is_nan f)) (map num_to_float col).

(** what one converted value ends as: itself truncated to its integer
    part (a float whose integer part does not fit 64 bits is cast to
    [-2^63]), or the fill value when it is missing *)
Definition year_of (fill : Z) (n : number) : Z :=
  match n with
  | NumInt z => z
  | NumFloat f => if is_nan f then fill else int64_of_float f
  end.

Definition exactly_representable (z : Z) : Prop := Z.abs z < 2 ^ 53.


Definition key_le (by_ : list pystr) (r1 r2 : Row) : Prop :=
  key_leb (row_key by_ r1) (row_key by_ r2) = true.

(** ascending on the key *)
Definition sorted_by (by_ : list pystr) (l : list Row) : Prop := Sorted (key_le by_) l.

(** the records of [l'] that have a given key are those of [l], in the
    order they have in [l] *)
Definition stable (by_ : list pystr) (l l' : list Row) : Prop :=
  forall k, List.filter (fun r => bool_decide (row_key by_ r = k)) l'
            = List.filter (fun r => bool_decide (row_key by_ r = k)) l.

(** what [argsort] owes its caller: a permutation of the positions, along
    which the keys never decrease *)
Definition is_argsort (keys : list value) (indexer : list nat) : Prop :=
  Permutation indexer (seq 0 (length keys))
  /\ Sorted (fun i j => value_compare (keys !!! i) (keys !!! j) <> Gt) indexer.

Local Close Scope Z_scope.

(** every semicolon is directly followed by a space *)
Fixpoint semicolons_spaced (s : pystr) : bool :=
  match s with
  | [] => true
  | c :: s' =>
      (negb (c =? SEMICOLON) || match s' with d :: _ => d =? SPACE | [] => false end)
      && semicolons_spaced s'
  end.

(** [v'] holds what [v] holds, the storage of a number apart: a string and
    a float are the same, an integer is itself or the float nearest to it
    (what the inference of a column's dtype makes of an integer that stands
    among floats), a missing value is missing. *)
Definition retyped (v v' : value) : Prop :=
  match v with
  | VStr _ | VFloat _ => v' = v
  | VInt z => v' = VInt z \/ v' = VFloat (float_of_Z z)
  | VNone | VNA => isna v' = true
  end.

(** the fields that neither the projection, the category filter nor a later
    stage names *)
Definition untouched_column (c : pystr) : Prop :=
  (c ∉ drop_cols) /\ c <> c_type /\ (c ∉ late_columns).

(** * Example tables *)

Definition str (s : string) : value := VStr (py s).

Definition result_or (d : DataFrame) (r : result DataFrame) : DataFrame :=
  match r with
  | OK x => x
  | Raise _ => d
  end.

(** the string ["  Hello,\r\nWorld!! "] *)
Definition hello_raw : pystr := py "  Hello," ++ [CR; LF] ++ py "World!! ".

(** A small catalogue with the columns of the Netflix export. *)
Definition catalogue : DataFrame :=
  make_table
    [c_show_id; c_type; c_title; c_director; c_cast; c_country; c_release_year;
     py "rating"; c_duration; c_listed_in]
    [ [str "s1"; str "Movie"; str " Her, "; str "Spike Jonze"; str "J. Phoenix, A. Adams";
       str "United States"; VInt 2013; str "R"; str "126 min"; str "Dramas, romantic  movies"];
      [str "s2"; str "TV Show"; str "Dark"; VFloat NaN; str "L. Hofmann";
       str "Germany"; VInt 2017; str "TV-MA"; str "3 Seasons"; str "TV Dramas"];
      [str "s3"; str "Movie"; str "Zed"; str "A. Director"; VFloat NaN;
       str "France"; VInt 2001; str "PG"; str "90 min"; str "Comedies"];
      [str "s4"; str " movie "; VFloat NaN; str "B. Director"; str "C. Actor";
       str "Spain"; VInt 1999; str "PG"; str "80 min"; str "Comedies"];
      [str "s5"; str "Movie"; VStr (py "Up" ++ [CR; LF] ++ py "Down"); str "N/A"; str "D. Actor";
       VFloat NaN; str "bad"; str "G"; str "95 min"; VFloat NaN];
      [str "s6"; VFloat NaN; str "Lost"; str "E. Director"; str "F. Actor";
       str "Italy"; VInt 2005; str "PG"; str "100 min"; str "Dramas"];
      [str "s7"; str "MOVIE"; str "Her;"; str "Spike Jonze"; str "Other";
       str "Canada"; VInt 2013; str "R"; str "120 min"; str "Dramas"];
      [str "s8"; str "Movie"; str "Alpha"; str "G. Director"; str "H. Actor";
       str "Japan"; VInt 2010; str "R"; str "110 min"; str "Action"] ].

Definition catalogue_out : DataFrame := result_or catalogue (main ref_lib catalogue).

(** a title made of blanks *)
Definition blank_title : DataFrame :=
  make_table [c_show_id; c_title] [ [str "s1"; str "   "] ].

(** a cast that is ["Unknown"] followed by the trade-mark sign U+2122 *)
Definition trademark_cast : DataFrame :=
  make_table [c_show_id; c_title; c_cast]
    [ [str "s1"; str "Her"; VStr (py "Unknown" ++ [8482])] ].

(** record 5 of the catalogue, which has no type *)
Definition untyped_record : Row := nth 5 (rows catalogue) (mkRow 0 ∅).

(** one movie whose type is spelled [" Movie"] *)
Definition capital_movie : DataFrame := make_table [c_type; c_title] [ [str " Movie"; str "Her"] ].

Definition retained_record : Row := nth 0 (rows (keep_only_movies ref_lib capital_movie)) (mkRow 0 ∅).

(** the release years [2001, "bad", 1999, missing] *)
Definition years : DataFrame :=
  make_table [c_release_year] [ [VInt 2001]; [str "bad"]; [VInt 1999]; [VFloat NaN] ].

Definition years_out : DataFrame := result_or years (clean_release_year ref_lib years).

(** release years of which one is not integral *)
Definition fractional_years : DataFrame :=
  make_table [c_release_year] [ [str "2001"]; [str "12.5"]; [str "1999"] ].

(** rows, and none of [title], [director], [release_year] *)
Definition no_key_columns : DataFrame :=
  make_table [c_show_id; c_country] [ [str "s1"; str "France"]; [str "s2"; str "Spain"] ].

(** both sort columns, two records with the same key *)
Definition shelf : DataFrame :=
  make_table [c_title; c_release_year]
    [ [str "B"; VInt 2000]; [str "A"; VInt 2001]; [str "B"; VInt 2000]; [str "A"; VInt 1999] ].

Definition shelf_sorted : DataFrame := result_or shelf (sort_stage ref_lib shelf).

(** the column [release_year] alone *)
Definition years_only : DataFrame :=
  make_table [c_release_year] [ [VInt 2001]; [VInt 1999]; [VInt 2000] ].

Definition years_only_sorted : DataFrame := result_or years_only (sort_stage ref_lib years_only).

(** eighteen records with the same title, and no [release_year] column *)
Definition same_title : DataFrame :=
  make_table [c_title; c_director]
    (map (fun i => [str "A"; VStr (py "d" ++ str_of_Z (Z.of_nat i))]) (seq 0 18)).

Definition same_title_sorted : DataFrame := result_or same_title (sort_stage ref_lib same_title).

(** the genre list ["Action, drama,  Comedy"] *)
Definition genres_raw : pystr := py "Action, drama,  Comedy".

(** a release year that is infinite *)
Definition infinite_year : DataFrame :=
  make_table [c_title; c_release_year]
    [ [str "Her"; VInt 2013]; [str "Zed"; VFloat (S754_infinity false)] ].

(** record 1 of [infinite_year] *)
Definition infinite_record : Row := nth 1 (rows infinite_year) (mkRow 0 ∅).

(** the catalogue after its strings are standardized, and its record 4 *)
Definition catalogue_standardized : DataFrame := standardize_strings catalogue.

Definition standardized_record : Row := nth 4 (rows catalogue_standardized) (mkRow 0 ∅).

(** record 4 of the catalogue after the defaults are filled *)
Definition filled_record : Row := nth 4 (rows (fill_missing catalogue)) (mkRow 0 ∅).

(** the first record of the cleaned catalogue *)
Definition first_out_record : Row := nth 0 (rows catalogue_out) (mkRow 0 ∅).

(** years that 64 bits do not hold: a float whose integer part is [10^19],
    and a column of unsigned integers *)
Definition huge_float_years : DataFrame :=
  make_table [c_release_year]
    [ [VFloat (float_of_Z (10 ^ 19))]; [VFloat (float_of_Z 3)]; [VFloat (float_of_Z 5)] ].

Definition unsigned_years : DataFrame :=
  make_table [c_release_year] [ [VInt (2 ^ 63)]; [VInt 2001] ].

(** record 3 of the catalogue, which has no title *)
Definition untitled_record : Row := nth 3 (rows catalogue) (mkRow 0 ∅).

(** the catalogue after the numeric stage, and its first record *)
Definition catalogue_numeric : DataFrame :=
  result_or catalogue (clean_release_year ref_lib (after_cast_filter ref_lib catalogue)).

Definition numeric_record : Row := nth 0 (rows catalogue_numeric) (mkRow 0 ∅).

(** a header and no record, without any of the key columns *)
Definition header_only : DataFrame := make_table [c_show_id; py "rating"] [].

(** * Properties *)

(** ** Strings: strip, run replacement, character replacement *)

Lemma last_cons_cons {A} (x y : A) (l : list A) : last (x :: y :: l) = last (y :: l).
Proof. reflexivity. Qed.

Lemma last_cons_nonempty {A} (x : A) (l : list A) :
  l <> [] -> last (x :: l) = last l.
Proof. destruct l; [congruence | reflexivity]. Qed.

Lemma lstrip_fixed s : head_ok s -> lstrip s = s.
Proof. destruct s as [|c s]; simpl; [reflexivity|]. now intros ->. Qed.

Lemma rstrip_fixed s : last_ok s -> rstrip s = s.
Proof.
  induction s as [|c s IH]; [reflexivity|].
  destruct s as [|d s].
  - unfold last_ok. simpl. now intros ->.
  - unfold last_ok in *. rewrite last_cons_cons. intros H.
    change (rstrip (c :: d :: s)) with
      (match rstrip (d :: s) with [] => if is_space c then [] else [c] | t => c :: t end).
    now rewrite (IH H).
Qed.

Lemma lstrip_head_ok s : head_ok (lstrip s).
Proof.
  induction s as [|c s IH]; simpl; [exact I|].
  destruct (is_space c) eqn:E; [exact IH | exact E].
Qed.

Lemma rstrip_head_ok s : head_ok s -> head_ok (rstrip s).
Proof.
  destruct s as [|c s]; simpl; [trivial|]. intros H.
  destruct (rstrip s); [rewrite H|]; exact H.
Qed.

Lemma rstrip_last_ok s : last_ok (rstrip s).
Proof.
  induction s as [|c s IH]; simpl; [exact I|].
  destruct (rstrip s) as [|d t] eqn:E.
  - destruct (is_space c) eqn:Ec; [exact I | exact Ec].
  - unfold last_ok in *. now rewrite last_cons_cons.
Qed.

Lemma str_strip_head_ok s : head_ok (str_strip s).
Proof. apply rstrip_head_ok, lstrip_head_ok. Qed.

Lemma str_strip_last_ok s : last_ok (str_strip s).
Proof. apply rstrip_last_ok. Qed.

Lemma str_strip_fixed s : head_ok s -> last_ok s -> str_strip s = s.
Proof.
  intros Hh Hl. unfold str_strip. rewrite (lstrip_fixed s Hh). now apply rstrip_fixed.
Qed.

Section Runs.

Variable p : char -> bool.
Hypothesis p_space : forall c, p c = true -> is_space c = true.

Lemma sub_runs_from_head_ok b s : head_ok s -> head_ok (sub_runs_from p b s).
Proof.
  destruct s as [|c s]; simpl; [trivial|]. intros H.
  destruct (p c) eqn:E; [|exact H].
  apply p_space in E. congruence.
Qed.

Lemma sub_runs_from_last b s c :
  last s = Some c -> is_space c = false -> last (sub_runs_from p b s) = Some c.
Proof.
  revert b. induction s as [|x s IH]; intros b Hl Hc; [discriminate|].
  destruct s as [|y s].
  - simpl in Hl. injection Hl as ->. simpl.
    destruct (p c) eqn:E; [|reflexivity].
    apply p_space in E. congruence.
  - rewrite last_cons_cons in Hl.
    assert (Hne : forall b', sub_runs_from p b' (y :: s) <> []).
    { intros b' Hnil. specialize (IH b' Hl Hc). now rewrite Hnil in IH. }
    change (sub_runs_from p b (x :: y :: s)) with
      (if p x then
         if b then sub_runs_from p true (y :: s) else SPACE :: sub_runs_from p true (y :: s)
       else x :: sub_runs_from p false (y :: s)).
    destruct (p x), b; try (rewrite last_cons_nonempty by apply Hne); now apply IH.
Qed.

Lemma sub_runs_from_last_ok b s : last_ok s -> last_ok (sub_runs_from p b s).
Proof.
  unfold last_ok at 1. destruct (last s) as [c|] eqn:E.
  - intros Hc. unfold last_ok. now rewrite (sub_runs_from_last b s c E Hc).
  - destruct s as [|x s]; [intros _; exact I|].
    exfalso. revert x E. induction s as [|y s IH]; intros x E; [discriminate|].
    rewrite last_cons_cons in E. eauto.
Qed.

Lemma sub_runs_from_none b s :
  Forall (fun c => p c = false) s -> sub_runs_from p b s = s.
Proof.
  induction 1 as [|c s Hc _ IH] in b |- *; simpl; [reflexivity|].
  now rewrite Hc, IH.
Qed.

Lemma sub_runs_from_map (f : char -> char) b s :
  (forall c, p (f c) = p c) -> f SPACE = SPACE ->
  sub_runs_from p b (map f s) = map f (sub_runs_from p b s).
Proof.
  intros Hp Hs. revert b. induction s as [|c s IH]; intros b; simpl; [reflexivity|].
  rewrite Hp. destruct (p c), b; simpl; rewrite ?Hs, IH; reflexivity.
Qed.

Lemma sub_runs_from_Forall (P : char -> Prop) b s :
  P SPACE -> Forall P s -> Forall P (sub_runs_from p b s).
Proof.
  intros HP. induction 1 as [|c s Hc _ IH] in b |- *; simpl; [constructor|].
  destruct (p c), b; auto.
Qed.

(** After the replacement the only characters of the class left are the
    spaces that replaced the runs. *)
Lemma sub_runs_from_class b s :
  Forall (fun c => p c = true -> c = SPACE) (sub_runs_from p b s).
Proof.
  revert b. induction s as [|c s IH]; intros b; simpl; [constructor|].
  destruct (p c) eqn:E; [destruct b|]; auto.
  constructor; [congruence | auto].
Qed.

Lemma sub_runs_from_idem s :
  p SPACE = true ->
  (forall b, sub_runs_from p b (sub_runs_from p true s) = sub_runs_from p true s)
  /\ sub_runs_from p false (sub_runs_from p false s) = sub_runs_from p false s.
Proof.
  intros Hs. induction s as [|c s [IHt IHf]]; [split; reflexivity|].
  simpl. destruct (p c) eqn:E.
  - split; [exact IHt|]. simpl. rewrite Hs. now rewrite IHt.
  - split; [intros b|]; simpl; rewrite E; now rewrite IHf.
Qed.

End Runs.

Lemma crlf_is_space c : is_crlf c = true -> is_space c = true.
Proof.
  unfold is_crlf, CR, LF. intros H. apply orb_true_iff in H.
  destruct H as [H|H]; apply N.eqb_eq in H; subst; reflexivity.
Qed.

Lemma semicolon_for_comma_space c :
  is_space (if c =? COMMA then SEMICOLON else c) = is_space c.
Proof. destruct (N.eqb_spec c COMMA) as [->|]; reflexivity. Qed.

Lemma replace_char_head_ok s : head_ok s -> head_ok (replace_char COMMA SEMICOLON s).
Proof. destruct s; simpl; [trivial|]. now rewrite semicolon_for_comma_space. Qed.

Lemma replace_char_last a b (s : pystr) :
  last (replace_char a b s) = (fun c => if c =? a then b else c) <$> last s.
Proof.
  induction s as [|c s IH]; [reflexivity|].
  destruct s as [|d s]; [reflexivity|].
  change (replace_char a b (c :: d :: s))
    with ((if c =? a then b else c) :: replace_char a b (d :: s)).
  rewrite last_cons_nonempty by discriminate. now rewrite IH.
Qed.

Lemma replace_char_last_ok s : last_ok s -> last_ok (replace_char COMMA SEMICOLON s).
Proof.
  unfold last_ok. rewrite replace_char_last. destruct (last s); simpl; [|trivial].
  now rewrite semicolon_for_comma_space.
Qed.

Lemma replace_char_idem a b s :
  a <> b -> replace_char a b (replace_char a b s) = replace_char a b s.
Proof.
  intros Hab. unfold replace_char. rewrite map_map. apply map_ext. intros c.
  destruct (N.eqb_spec c a) as [->|Hc].
  - destruct (N.eqb_spec b a); congruence.
  - destruct (N.eqb_spec c a); congruence.
Qed.

Lemma replace_char_absent a b s : a <> b -> Forall (fun c => c <> a) (replace_char a b s).
Proof.
  intros Hab. induction s as [|c s IH]; simpl; constructor; [|exact IH].
  destruct (N.eqb_spec c a); congruence.
Qed.

Lemma replace_char_Forall (P : char -> Prop) a b s :
  P b -> Forall P s -> Forall P (replace_char a b s).
Proof.
  intros Hb. induction 1; simpl; constructor; [|assumption].
  destruct (_ =? _); assumption.
Qed.

Lemma ascii_ignore_Forall s : Forall (fun c => is_ascii c = true) (ascii_ignore s).
Proof.
  unfold ascii_ignore. apply Forall_forall. intros c Hc.
  apply list_elem_of_In, filter_In in Hc. apply Hc.
Qed.

Lemma ascii_ignore_fixed s : Forall (fun c => is_ascii c = true) s -> ascii_ignore s = s.
Proof.
  unfold ascii_ignore. induction 1 as [|c s Hc _ IH]; simpl; [reflexivity|].
  now rewrite Hc, IH.
Qed.

Lemma lstrip_Forall (P : char -> Prop) s : Forall P s -> Forall P (lstrip s).
Proof.
  induction 1 as [|c s Hc Hs IH]; simpl; [constructor|].
  destruct (is_space c); auto.
Qed.

Lemma rstrip_Forall (P : char -> Prop) s : Forall P s -> Forall P (rstrip s).
Proof.
  induction 1 as [|c s Hc Hs IH]; simpl; [constructor|].
  destruct (rstrip s); [destruct (is_space c)|]; auto.
Qed.

Lemma str_strip_Forall (P : char -> Prop) s : Forall P s -> Forall P (str_strip s).
Proof. intros H. apply rstrip_Forall, lstrip_Forall, H. Qed.

(** ** The basic text clean *)

Lemma clean_core_head_ok s : head_ok (clean_core s).
Proof.
  apply replace_char_head_ok.
  apply sub_runs_from_head_ok; [auto|].
  apply sub_runs_from_head_ok; [exact crlf_is_space|].
  apply str_strip_head_ok.
Qed.

Lemma clean_core_last_ok s : last_ok (clean_core s).
Proof.
  apply replace_char_last_ok.
  apply sub_runs_from_last_ok; [auto|].
  apply sub_runs_from_last_ok; [exact crlf_is_space|].
  apply str_strip_last_ok.
Qed.

Lemma clean_core_no_crlf s : Forall (fun c => is_crlf c = false) (clean_core s).
Proof.
  apply replace_char_Forall; [reflexivity|].
  pose proof (sub_runs_from_class is_space false (sub_runs is_crlf (str_strip s))) as H.
  rewrite Forall_forall in H. apply Forall_forall. intros c Hc.
  specialize (H c Hc). simpl in H.
  destruct (is_crlf c) eqn:E; [|reflexivity].
  rewrite (H (crlf_is_space c E)) in E. discriminate.
Qed.

Lemma clean_core_idempotent s : clean_core (clean_core s) = clean_core s.
Proof.
  unfold clean_core at 1.
  rewrite (str_strip_fixed _ (clean_core_head_ok s) (clean_core_last_ok s)).
  unfold sub_runs at 2. rewrite (sub_runs_from_none _ _ _ (clean_core_no_crlf s)).
  unfold clean_core, sub_runs, replace_char.
  rewrite sub_runs_from_map by (auto using semicolon_for_comma_space).
  rewrite (proj2 (sub_runs_from_idem is_space _ eq_refl)).
  apply (replace_char_idem COMMA SEMICOLON). discriminate.
Qed.

Lemma clean_core_ascii s :
  Forall (fun c => is_ascii c = true) s -> Forall (fun c => is_ascii c = true) (clean_core s).
Proof.
  intros H. apply replace_char_Forall; [reflexivity|].
  apply sub_runs_from_Forall; [reflexivity|].
  apply sub_runs_from_Forall; [reflexivity|].
  now apply str_strip_Forall.
Qed.

Section TextClean.

Variable L : PyLib.

Lemma clean_text_basic_str s : clean_text_basic L (VStr s) = ascii_ignore (clean_core s).
Proof. reflexivity. Qed.

(** C6 (amended).  The output of the basic text clean has only 7-bit
    characters, code points below 128: it is the cleaned text with every
    other character dropped, nothing put in its place.  (ASCII control
    characters that are not whitespace pass through.) *)
Theorem clean_text_basic_ascii (text : value) :
  Forall (fun c => is_ascii c = true) (clean_text_basic L text)
  /\ forall s, text = VStr s ->
       clean_text_basic L text = List.filter is_ascii (clean_core s).
Proof.
  split.
  - unfold clean_text_basic. destruct (isna text); [constructor|].
    apply ascii_ignore_Forall.
  - intros s ->. reflexivity.
Qed.

(** C9 (amended).  On a string of 7-bit characters the basic text clean is
    idempotent: cleaning its own output returns that output. *)
Theorem clean_text_basic_idempotent (s : pystr) :
  Forall (fun c => is_ascii c = true) s ->
  clean_text_basic L (VStr (clean_text_basic L (VStr s))) = clean_text_basic L (VStr s).
Proof.
  intros Hs. rewrite !clean_text_basic_str.
  rewrite (ascii_ignore_fixed (clean_core s)) by now apply clean_core_ascii.
  rewrite clean_core_idempotent.
  apply ascii_ignore_fixed. now apply clean_core_ascii.
Qed.

End TextClean.

(** C6, as stated, fails: the bell character U+0007 is neither printable
    nor removed. *)
Lemma clean_text_basic_keeps_control :
  clean_text_basic ref_lib (VStr [97; 7; 98]) = [97; 7; 98]
  /\ ~ Forall (fun c => is_printable_ascii c = true) (clean_text_basic ref_lib (VStr [97; 7; 98])).
Proof.
  split; [reflexivity|].
  intros H. apply Forall_cons_1, proj2, Forall_cons_1, proj1 in H. discriminate H.
Qed.

(** C9: the example of the specification, and the theorem applied to it. *)
Lemma clean_text_basic_idempotent_hello :
  Forall (fun c => is_ascii c = true) hello_raw
  /\ clean_text_basic ref_lib (VStr hello_raw) = py "Hello; World!!"
  /\ clean_text_basic ref_lib (VStr (clean_text_basic ref_lib (VStr hello_raw)))
     = clean_text_basic ref_lib (VStr hello_raw).
Proof.
  assert (H : Forall (fun c => is_ascii c = true) hello_raw).
  { apply Forall_forall. intros c Hc. vm_compute in Hc.
    repeat (apply elem_of_cons in Hc as [->|Hc]; [reflexivity|]).
    apply elem_of_nil in Hc. destruct Hc. }
  split; [exact H|]. split; [reflexivity|].
  exact (clean_text_basic_idempotent ref_lib hello_raw H).
Defined.

(** C9, as stated, fails: in ["a é b"] the dropped letter leaves two
    adjacent spaces, which a second clean collapses. *)
Lemma clean_text_basic_not_idempotent :
  clean_text_basic ref_lib (VStr [97; 32; 233; 32; 98]) = [97; 32; 32; 98]
  /\ clean_text_basic ref_lib (VStr (clean_text_basic ref_lib (VStr [97; 32; 233; 32; 98])))
     <> clean_text_basic ref_lib (VStr [97; 32; 233; 32; 98]).
Proof. split; [reflexivity | discriminate]. Qed.

(** ** Results, rows and cells *)

Lemma bind_OK_inv {A B} (m : result A) (f : A -> result B) (b : B) :
  (m ≫= f) = OK b -> exists a, m = OK a /\ f a = OK b.
Proof. destruct m as [a|e]; simpl; [eauto | discriminate]. Qed.

Lemma fmap_OK_inv {A B} (f : A -> B) (m : result A) (b : B) :
  f <$> m = OK b -> exists a, m = OK a /\ b = f a.
Proof. destruct m as [a|e]; simpl; [|discriminate]. intros [= <-]. eauto. Qed.

Lemma traverse_OK_inv {A B} (f : A -> result B) (l : list A) (l' : list B) :
  traverse f l = OK l' -> Forall2 (fun x y => f x = OK y) l l'.
Proof.
  revert l'. induction l as [|x l IH]; simpl; intros l' H.
  - injection H as <-. constructor.
  - apply bind_OK_inv in H as (y & Hy & H).
    apply bind_OK_inv in H as (ys & Hys & H).
    injection H as <-. constructor; auto.
Qed.

Lemma Forall2_In_r {A B} (R : A -> B -> Prop) l l' y :
  Forall2 R l l' -> In y l' -> exists x, In x l /\ R x y.
Proof.
  induction 1 as [|x y' l l' HR _ IH]; simpl; [tauto|].
  intros [->|Hy]; [eauto|]. destruct (IH Hy) as (x' & ? & ?). eauto.
Qed.

Lemma Forall2_In_l {A B} (R : A -> B -> Prop) l l' x :
  Forall2 R l l' -> In x l -> exists y, In y l' /\ R x y.
Proof.
  induction 1 as [|x' y l l' HR _ IH]; simpl; [tauto|].
  intros [->|Hx]; [eauto|]. destruct (IH Hx) as (y' & ? & ?). eauto.
Qed.

Lemma cell_set_cell_eq r c v : cell (set_cell r c v) c = v.
Proof. unfold cell, set_cell. simpl. now rewrite lookup_insert_eq. Qed.

Lemma cell_set_cell_ne r c c' v : c <> c' -> cell (set_cell r c v) c' = cell r c'.
Proof. intros H. unfold cell, set_cell. simpl. now rewrite lookup_insert_ne. Qed.

Lemma cell_fmap (f : value -> value) r c :
  f (VFloat NaN) = VFloat NaN -> cell (mkRow (label r) (f <$> cells r)) c = f (cell r c).
Proof.
  intros Hf. unfold cell. simpl. rewrite lookup_fmap.
  destruct (cells r !! c); simpl; congruence.
Qed.

Lemma cell_delete_all names r c :
  c ∉ names -> cell (mkRow (label r) (foldr delete (cells r) names)) c = cell r c.
Proof.
  intros Hc. unfold cell. simpl. f_equal.
  induction names as [|n names IH]; simpl; [reflexivity|].
  apply not_elem_of_cons in Hc as [Hn Hc].
  rewrite lookup_delete_ne by congruence. auto.
Qed.

Lemma has_column_true df c : has_column df c = true <-> c ∈ columns df.
Proof. unfold has_column. apply bool_decide_eq_true. Qed.

Lemma existing_elem df names c : c ∈ existing df names <-> c ∈ names /\ c ∈ columns df.
Proof.
  unfold existing. rewrite !list_elem_of_In, filter_In, <- !list_elem_of_In.
  now rewrite has_column_true.
Qed.

(** ** How the rows of one stage come from the rows of the stage before *)

Lemma same_except_refl cs r : same_except cs r r.
Proof. split; auto. Qed.

Lemma same_except_trans cs1 cs2 r1 r2 r3 :
  same_except cs1 r1 r2 -> same_except cs2 r2 r3 -> same_except (cs1 ++ cs2) r1 r3.
Proof.
  intros [Hl1 H1] [Hl2 H2]. split; [congruence|].
  intros c Hc. apply not_elem_of_app in Hc as [Hc1 Hc2].
  rewrite H2 by assumption. now apply H1.
Qed.

Lemma rows_from_refl cs df : rows_from cs df df.
Proof. intros r Hr. exists r. split; [assumption | apply same_except_refl]. Qed.

Lemma rows_from_trans cs1 cs2 df1 df2 df3 :
  rows_from cs1 df1 df2 -> rows_from cs2 df2 df3 -> rows_from (cs1 ++ cs2) df1 df3.
Proof.
  intros H12 H23 r3 Hr3.
  destruct (H23 r3 Hr3) as (r2 & Hr2 & Hs23).
  destruct (H12 r2 Hr2) as (r1 & Hr1 & Hs12).
  exists r1. split; [assumption|]. eapply same_except_trans; eassumption.
Qed.

Lemma rows_from_subset cs df df' :
  (forall r, In r (rows df') -> In r (rows df)) -> rows_from cs df df'.
Proof. intros H r Hr. exists r. split; [auto | apply same_except_refl]. Qed.

Lemma rows_from_apply_column c f df : rows_from [c] df (apply_column c f df).
Proof.
  intros r' Hr'. simpl in Hr'. apply in_map_iff in Hr' as (r & <- & Hr).
  exists r. split; [assumption|]. split; [reflexivity|].
  intros c' Hc'. apply cell_set_cell_ne. intros ->. apply Hc'. left.
Qed.

Lemma rows_from_filter_rows keep df : rows_from [] df (filter_rows keep df).
Proof. apply rows_from_subset. intros r Hr. simpl in Hr. now apply filter_In in Hr. Qed.

Lemma columns_apply_column c f df : columns (apply_column c f df) = columns df.
Proof. reflexivity. Qed.

Lemma columns_filter_rows k df : columns (filter_rows k df) = columns df.
Proof. reflexivity. Qed.

Lemma columns_applymap f df : columns (applymap f df) = columns df.
Proof. reflexivity. Qed.

Lemma apply_all_label cfs r : label (apply_all cfs r) = label r.
Proof.
  revert r. induction cfs as [|cf cfs IH]; intros r; [reflexivity|].
  unfold apply_all in *. simpl. now rewrite IH.
Qed.

Lemma apply_all_other cfs r c : c ∉ map fst cfs -> cell (apply_all cfs r) c = cell r c.
Proof.
  revert r. induction cfs as [|cf cfs IH]; intros r Hc; [reflexivity|].
  simpl in Hc. apply not_elem_of_cons in Hc as [Hne Hc].
  unfold apply_all in *. simpl. rewrite IH by assumption.
  apply cell_set_cell_ne. congruence.
Qed.

Lemma apply_all_at cfs r c f :
  NoDup (map fst cfs) -> In (c, f) cfs -> cell (apply_all cfs r) c = f (cell r c).
Proof.
  revert r. induction cfs as [|cf cfs IH]; intros r Hnd Hin; [destruct Hin|].
  simpl in Hnd. apply NoDup_cons in Hnd as [Hfresh Hnd].
  change (apply_all (cf :: cfs) r) with (apply_all cfs (set_cell r cf.1 (cf.2 (cell r cf.1)))).
  destruct Hin as [->|Hin].
  - rewrite apply_all_other by assumption. simpl. apply cell_set_cell_eq.
  - rewrite (IH _ Hnd Hin). f_equal. apply cell_set_cell_ne.
    intros E. apply Hfresh. rewrite E. apply list_elem_of_In, in_map_iff. now exists (c, f).
Qed.

Lemma fold_apply_columns {A} (name : A -> pystr) (F : A -> value -> value) (l : list A) df :
  fold_left (fun df a => if has_column df (name a) then apply_column (name a) (F a) df else df) l df
  = mkDF (columns df)
         (map (apply_all (map (fun a => (name a, F a))
                              (List.filter (fun a => has_column df (name a)) l)))
              (rows df)).
Proof.
  revert df. induction l as [|a l IH]; intros df.
  - simpl. destruct df. simpl. now rewrite map_id.
  - simpl. destruct (has_column df (name a)) eqn:E.
    + rewrite IH. simpl. rewrite map_map. reflexivity.
    + apply IH.
Qed.

Lemma fold_apply_columns_existing (F : pystr -> value -> value) (l : list pystr) df :
  fold_left (fun df c => apply_column c (F c) df) (existing df l) df
  = mkDF (columns df) (map (apply_all (map (fun c => (c, F c)) (existing df l))) (rows df)).
Proof.
  assert (H : forall l0 d, fold_left (fun df c => apply_column c (F c) df) l0 d
              = mkDF (columns d) (map (apply_all (map (fun c => (c, F c)) l0)) (rows d))).
  { induction l0 as [|c l0 IH]; intros d.
    - simpl. destruct d. simpl. now rewrite map_id.
    - simpl. rewrite IH. simpl. now rewrite map_map. }
  apply H.
Qed.

Lemma NoDup_map_filter {A B} (f : A -> B) (k : A -> bool) (l : list A) :
  NoDup (map f l) -> NoDup (map f (List.filter k l)).
Proof.
  induction l as [|a l IH]; simpl; intros H; [constructor|].
  apply NoDup_cons in H as [Ha H].
  destruct (k a); simpl; [|auto].
  apply NoDup_cons. split; [|auto].
  intros Hin. apply Ha. apply list_elem_of_In, in_map_iff in Hin as (x & Hx & Hin).
  apply filter_In in Hin as [Hin _].
  apply list_elem_of_In, in_map_iff. eauto.
Qed.

Section Stages.

Variable L : PyLib.

(** *** Stage 2 *)

Lemma columns_drop_unused df c :
  c ∉ drop_cols -> c ∈ columns (drop_unused_columns df) <-> c ∈ columns df.
Proof.
  intros Hc. unfold drop_unused_columns, drop_columns. cbn [columns].
  rewrite list_elem_of_In, filter_In, <- list_elem_of_In.
  split; [tauto|]. intros H. split; [assumption|].
  apply negb_true_iff, bool_decide_eq_false. rewrite existing_elem. tauto.
Qed.

Lemma rows_from_drop_unused df : rows_from drop_cols df (drop_unused_columns df).
Proof.
  intros r' Hr'. unfold drop_unused_columns, drop_columns in Hr'. cbn [rows] in Hr'.
  apply in_map_iff in Hr' as (r & <- & Hr).
  exists r. split; [assumption|]. split; [reflexivity|].
  intros c Hc. apply cell_delete_all. rewrite existing_elem. tauto.
Qed.

(** *** Stage 3 *)

Lemma columns_keep_only_movies df : columns (keep_only_movies L df) = columns df.
Proof. unfold keep_only_movies. now destruct (has_column df c_type). Qed.

Lemma rows_from_keep_only_movies df : rows_from [c_type] df (keep_only_movies L df).
Proof.
  unfold keep_only_movies. destruct (has_column df c_type); [|apply rows_from_refl].
  apply (rows_from_trans [c_type] [] _ _ _ (rows_from_apply_column _ _ _)
           (rows_from_filter_rows _ _)).
Qed.

(** *** Stage 4 *)

Lemma columns_standardize_strings df : columns (standardize_strings df) = columns df.
Proof. reflexivity. Qed.

Lemma rows_standardize_strings df r' :
  In r' (rows (standardize_strings df)) ->
  exists r, In r (rows df) /\ label r' = label r /\ forall c, cell r' c = standardize (cell r c).
Proof.
  simpl. rewrite map_map. intros H. apply in_map_iff in H as (r & <- & Hr).
  exists r. split; [assumption|]. split; [reflexivity|]. intros c. simpl.
  change (mkRow (label r) (replace_sentinel <$> (strip_if_str <$> cells r)))
    with (mkRow (label (mkRow (label r) (strip_if_str <$> cells r)))
                (replace_sentinel <$> cells (mkRow (label r) (strip_if_str <$> cells r)))).
  rewrite cell_fmap by reflexivity. now rewrite cell_fmap by reflexivity.
Qed.

(** *** Stage 5 *)

Lemma rows_dropna cols df r :
  In r (rows (dropna cols df)) <->
  In r (rows df) /\ forall c, c ∈ cols -> isna (cell r c) = false.
Proof.
  unfold dropna. simpl. rewrite filter_In, forallb_forall.
  split; intros [Hr H]; (split; [assumption|]); intros c Hc.
  - apply negb_true_iff, H. now apply list_elem_of_In.
  - apply negb_true_iff, H. now apply list_elem_of_In.
Qed.

Lemma fill_missing_rows df :
  fill_missing df = mkDF (columns df) (map (apply_all (fill_plan df)) (rows df)).
Proof.
  unfold fill_missing, fill_plan.
  apply (fold_apply_columns (fun cv : pystr * pystr => cv.1)
           (fun cv : pystr * pystr => fillna (VStr cv.2))).
Qed.

Lemma columns_fill_missing df : columns (fill_missing df) = columns df.
Proof. now rewrite fill_missing_rows. Qed.

Lemma fill_plan_names df c : c ∈ map fst (fill_plan df) -> c ∈ map fst fill_defaults.
Proof.
  unfold fill_plan. rewrite map_map. rewrite !list_elem_of_In, !in_map_iff.
  intros (cv & <- & Hcv). apply filter_In in Hcv as [Hcv _]. now exists cv.
Qed.

Lemma rows_from_fill_missing df : rows_from (map fst fill_defaults) df (fill_missing df).
Proof.
  rewrite fill_missing_rows. intros r' Hr'. simpl in Hr'.
  apply in_map_iff in Hr' as (r & <- & Hr). exists r. split; [assumption|].
  split; [apply apply_all_label|]. intros c Hc. apply apply_all_other.
  intros Hin. apply Hc. eapply fill_plan_names, Hin.
Qed.

Lemma fill_plan_NoDup df : NoDup (map fst (fill_plan df)).
Proof.
  unfold fill_plan. rewrite map_map.
  apply (NoDup_map_filter (fun cv : pystr * pystr => cv.1)).
  apply (bool_decide_unpack (NoDup _)). vm_compute. exact I.
Qed.

(** *** Stage 6 *)

Lemma columns_remove_unknown_cast df : columns (remove_unknown_cast L df) = columns df.
Proof. unfold remove_unknown_cast. now destruct (has_column df c_cast). Qed.

Lemma rows_from_remove_unknown_cast df : rows_from [c_cast] df (remove_unknown_cast L df).
Proof.
  unfold remove_unknown_cast. destruct (has_column df c_cast); [|apply rows_from_refl].
  apply (rows_from_trans [c_cast] [] _ _ _ (rows_from_apply_column _ _ _)
           (rows_from_filter_rows _ _)).
Qed.

Lemma rows_remove_unknown_cast df r' :
  c_cast ∈ columns df ->
  In r' (rows (remove_unknown_cast L df)) <->
  exists r, In r (rows df) /\ r' = set_cell r c_cast (cast_as_str L (cell r c_cast))
            /\ str_lower L (py_str L (cell r c_cast)) <> py "unknown".
Proof.
  intros Hc. apply has_column_true in Hc. unfold remove_unknown_cast. rewrite Hc.
  cbn [rows filter_rows apply_column]. rewrite filter_In, in_map_iff.
  assert (Hk : forall r, cast_known L (set_cell r c_cast (cast_as_str L (cell r c_cast))) = true
                <-> str_lower L (py_str L (cell r c_cast)) <> py "unknown").
  { intros r. unfold cast_known. rewrite cell_set_cell_eq. unfold cast_as_str.
    rewrite negb_true_iff, bool_decide_eq_false. reflexivity. }
  split.
  - intros [(r & <- & Hr) Hkeep]. exists r. rewrite <- Hk. auto.
  - intros (r & Hr & -> & Hne). split; [eauto|]. now apply Hk.
Qed.

(** *** Stage 7 *)

Lemma clean_release_year_rows df df' :
  clean_release_year L df = OK df' ->
  columns df' = columns df /\ rows_from [c_release_year] df df'.
Proof.
  unfold clean_release_year. destruct (has_column df c_release_year).
  - cbv zeta. destruct (uint64_conflict _); [discriminate|].
    intros H. apply bind_OK_inv in H as (year & _ & H).
    apply bind_OK_inv in H as (rows' & Hrows & H). injection H as <-.
    split; [reflexivity|]. intros r' Hr'. cbn [rows] in Hr'.
    apply traverse_OK_inv in Hrows.
    destruct (Forall2_In_r _ _ _ _ Hrows Hr') as (r & Hr & Hrr').
    apply bind_OK_inv in Hrr' as (v & _ & Hrr'). injection Hrr' as <-.
    exists r. split; [assumption|]. split; [reflexivity|].
    intros c Hc. apply cell_set_cell_ne. intros <-. apply Hc. left.
  - intros [= <-]. split; [reflexivity | apply rows_from_refl].
Qed.

(** *** Stage 8 *)

Lemma normalize_text_rows df :
  normalize_text L df
  = genres_step L (mkDF (columns df) (map (apply_all (text_plan L df)) (rows df))).
Proof.
  unfold normalize_text, genres_step, text_plan.
  now rewrite (fold_apply_columns_existing (fun _ v => VStr (clean_text_basic L v))).
Qed.

Lemma columns_normalize_text df : columns (normalize_text L df) = columns df.
Proof.
  rewrite normalize_text_rows. unfold genres_step.
  now destruct (has_column _ c_listed_in).
Qed.

Lemma text_plan_names df c : c ∈ map fst (text_plan L df) <-> c ∈ text_columns /\ c ∈ columns df.
Proof.
  unfold text_plan. rewrite map_map. cbn [fst]. rewrite map_id. apply existing_elem.
Qed.

Lemma rows_from_normalize_text df :
  rows_from (text_columns ++ [c_listed_in]) df (normalize_text L df).
Proof.
  rewrite normalize_text_rows.
  apply (rows_from_trans _ _ _ (mkDF (columns df) (map (apply_all (text_plan L df)) (rows df)))).
  - intros r' Hr'. cbn [rows] in Hr'. apply in_map_iff in Hr' as (r & <- & Hr).
    exists r. split; [assumption|]. split; [apply apply_all_label|].
    intros c Hc. apply apply_all_other. rewrite text_plan_names. tauto.
  - unfold genres_step. destruct (has_column _ c_listed_in);
      [apply rows_from_apply_column | apply rows_from_refl].
Qed.

Lemma normalize_text_cleaned df c r' :
  c ∈ text_columns -> c ∈ columns df -> In r' (rows (normalize_text L df)) ->
  exists r, In r (rows df) /\ label r' = label r
            /\ cell r' c = VStr (clean_text_basic L (cell r c)).
Proof.
  intros Hc Hcol. rewrite normalize_text_rows. intros Hr'.
  assert (Hne : c <> c_listed_in).
  { intros ->. revert Hc. apply (bool_decide_unpack (c_listed_in ∉ text_columns)).
    vm_compute. exact I. }
  assert (Hplan : forall r, cell (apply_all (text_plan L df) r) c
                            = VStr (clean_text_basic L (cell r c))).
  { intros r. apply (apply_all_at (text_plan L df) r c (fun v => VStr (clean_text_basic L v))).
    - unfold text_plan. rewrite map_map. cbn [fst]. rewrite map_id.
      unfold existing. rewrite <- (map_id (List.filter _ _)).
      apply (NoDup_map_filter id (has_column df) text_columns).
      rewrite map_id. apply (bool_decide_unpack (NoDup _)). vm_compute. exact I.
    - unfold text_plan. apply in_map_iff. exists c. split; [reflexivity|].
      apply list_elem_of_In, existing_elem. tauto. }
  unfold genres_step in Hr'. destruct (has_column _ c_listed_in); cbn [rows apply_column] in Hr'.
  - apply in_map_iff in Hr' as (r1 & <- & Hr1).
    apply in_map_iff in Hr1 as (r & <- & Hr). exists r. split; [assumption|].
    split; [apply apply_all_label|].
    rewrite cell_set_cell_ne by congruence. apply Hplan.
  - apply in_map_iff in Hr' as (r & <- & Hr). exists r. split; [assumption|].
    split; [apply apply_all_label | apply Hplan].
Qed.

(** *** Stage 9 *)

Lemma keep_first_In key seen l r : In r (keep_first key seen l) -> In r l.
Proof.
  revert seen. induction l as [|x l IH]; intros seen; simpl; [tauto|].
  destruct (bool_decide _); simpl; intros H; [eauto|].
  destruct H; eauto.
Qed.

Lemma remove_duplicates_rows df df' :
  remove_duplicates df = OK df' ->
  columns df' = columns df /\ forall r, In r (rows df') -> In r (rows df).
Proof.
  unfold remove_duplicates, drop_duplicates. destruct (df_empty df).
  - intros [= <-]. auto.
  - destruct (existing df dedup_columns); [discriminate|].
    intros [= <-]. split; [reflexivity|]. intros r. apply keep_first_In.
Qed.

(** *** Stage 10 *)

Lemma insert_row_perm by_ r l : Permutation (r :: l) (insert_row by_ r l).
Proof.
  induction l as [|x l IH]; simpl; [reflexivity|].
  destruct (key_leb _ _); [reflexivity|].
  rewrite perm_swap. now apply perm_skip.
Qed.

Lemma lexsort_perm by_ l : Permutation l (lexsort by_ l).
Proof.
  induction l as [|x l IH]; simpl; [constructor|].
  rewrite <- insert_row_perm. now apply perm_skip.
Qed.

Lemma take_rows_In indexer l l' r : take_rows indexer l = OK l' -> In r l' -> In r l.
Proof.
  intros H Hr. apply traverse_OK_inv in H.
  destruct (Forall2_In_r _ _ _ _ H Hr) as (i & _ & Hi).
  destruct (l !! i) as [r0|] eqn:E; [|discriminate].
  injection Hi as <-. apply list_elem_of_In. eapply list_elem_of_lookup_2, E.
Qed.

Lemma sort_values_rows by_ df df' :
  sort_values L by_ df = OK df' ->
  columns df' = columns df /\ forall r, In r (rows df') -> In r (rows df).
Proof.
  unfold sort_values. destruct by_ as [|c [|c' by_]].
  - intros [= <-]. auto.
  - intros H. apply bind_OK_inv in H as (rows' & Hrows & H). injection H as <-.
    split; [reflexivity|]. intros r. cbn [rows]. eapply take_rows_In, Hrows.
  - intros [= <-]. split; [reflexivity|]. intros r. cbn [rows].
    apply Permutation_in. symmetry. apply lexsort_perm.
Qed.

Lemma sort_stage_rows df df' :
  sort_stage L df = OK df' ->
  columns df' = columns df /\ forall r, In r (rows df') -> In r (rows df).
Proof.
  unfold sort_stage. destruct (existing df sort_columns).
  - intros [= <-]. auto.
  - apply sort_values_rows.
Qed.

Lemma rows_reescape df r' :
  In r' (rows (reescape df)) <->
  exists r, In r (rows df) /\ r' = mkRow (label r) (escape <$> cells r).
Proof.
  unfold reescape, applymap. cbn [rows]. rewrite map_map, in_map_iff. cbn [label cells].
  split; intros (r & H1 & H2); exists r.
  - split; [assumption|]. rewrite <- H1. f_equal.
    now rewrite <- map_fmap_compose.
  - split; [|assumption]. rewrite H2. f_equal.
    now rewrite <- map_fmap_compose.
Qed.

(** *** The pipeline as a chain of stages *)

Lemma main_stages df out :
  main L df = OK out <->
  exists d7 d9 d10,
    clean_release_year L (after_cast_filter L df) = OK d7
    /\ remove_duplicates (normalize_text L d7) = OK d9
    /\ sort_stage L d9 = OK d10
    /\ out = reescape d10.
Proof.
  unfold main, sort_and_format. split.
  - intros H. apply bind_OK_inv in H as (d7 & H7 & H).
    apply bind_OK_inv in H as (d9 & H9 & H).
    apply bind_OK_inv in H as (d10 & H10 & H). injection H as <-.
    exists d7, d9, d10. auto.
  - intros (d7 & d9 & d10 & H7 & H9 & H10 & ->).
    change (handle_missing (standardize_strings (keep_only_movies L (drop_unused_columns df))))
      with (after_fill L df).
    change (remove_unknown_cast L (after_fill L df)) with (after_cast_filter L df).
    rewrite H7. cbn [mbind result_bind]. rewrite H9. cbn [mbind result_bind].
    rewrite H10. reflexivity.
Qed.

End Stages.

(** ** The final escaping pass *)

Lemma not_crlf_iff c : is_crlf c = false <-> c <> CR /\ c <> LF.
Proof.
  unfold is_crlf. rewrite orb_false_iff, !N.eqb_neq. reflexivity.
Qed.

Lemma escaped_no_separator s :
  no_separator (str_strip (replace_char COMMA SPACE (sub_runs is_crlf s))).
Proof.
  apply str_strip_Forall.
  assert (H1 : Forall (fun c => c <> COMMA) (replace_char COMMA SPACE (sub_runs is_crlf s)))
    by (apply replace_char_absent; discriminate).
  assert (H2 : Forall (fun c => is_crlf c = false)
                 (replace_char COMMA SPACE (sub_runs is_crlf s))).
  { apply replace_char_Forall; [reflexivity|].
    pose proof (sub_runs_from_class is_crlf false s) as H.
    rewrite Forall_forall in H. apply Forall_forall. intros c Hc.
    specialize (H c Hc). simpl in H.
    destruct (is_crlf c) eqn:E; [|reflexivity].
    rewrite (H eq_refl) in E. discriminate. }
  rewrite Forall_forall in H1, H2. apply Forall_forall. intros c Hc.
  specialize (H1 c Hc). specialize (H2 c Hc). apply not_crlf_iff in H2. tauto.
Qed.

Lemma escape_str v s :
  escape v = VStr s ->
  exists s0, v = VStr s0 /\ s = str_strip (replace_char COMMA SPACE (sub_runs is_crlf s0)).
Proof.
  destruct v as [s0| | | |]; try discriminate.
  unfold escape. simpl. intros [= <-]. eauto.
Qed.

Lemma escape_isna v : isna (escape v) = isna v.
Proof. now destruct v. Qed.

Lemma cell_escaped r c : cell (mkRow (label r) (escape <$> cells r)) c = escape (cell r c).
Proof. now apply cell_fmap. Qed.

Section Output.

Variable L : PyLib.

(** C1.  In the table that the pipeline produces, no string value of any
    record holds a carriage return, a newline or a comma. *)
Theorem output_no_separator (df out : DataFrame) :
  main L df = OK out ->
  forall r c s, In r (rows out) -> cells r !! c = Some (VStr s) -> no_separator s.
Proof.
  intros Hmain r c s Hr Hc.
  apply main_stages in Hmain as (d7 & d9 & d10 & _ & _ & _ & ->).
  apply rows_reescape in Hr as (r0 & _ & ->). cbn [cells] in Hc.
  rewrite lookup_fmap in Hc. destruct (cells r0 !! c) as [v|]; [|discriminate].
  injection Hc as Hc. apply escape_str in Hc as (s0 & _ & ->).
  apply escaped_no_separator.
Qed.

(** The columns seen by the stages are those left by the projection. *)
Lemma columns_before_fill df : columns (before_fill L df) = columns (drop_unused_columns df).
Proof.
  unfold before_fill, dropna. rewrite columns_filter_rows, columns_standardize_strings.
  apply columns_keep_only_movies.
Qed.

Lemma columns_after_cast_filter df :
  columns (after_cast_filter L df) = columns (drop_unused_columns df).
Proof.
  unfold after_cast_filter, after_fill.
  rewrite columns_remove_unknown_cast, columns_fill_missing. apply columns_before_fill.
Qed.

Lemma rows_from_after_cast_filter df :
  rows_from (map fst fill_defaults ++ [c_cast]) (before_fill L df) (after_cast_filter L df).
Proof.
  apply (rows_from_trans _ _ _ (after_fill L df)).
  - apply rows_from_fill_missing.
  - apply rows_from_remove_unknown_cast.
Qed.

Lemma rows_from_normalized df d7 :
  clean_release_year L (after_cast_filter L df) = OK d7 ->
  rows_from late_columns (before_fill L df) (normalize_text L d7).
Proof.
  intros H7. apply clean_release_year_rows in H7 as [_ H7].
  apply (rows_from_trans _ _ _ (after_cast_filter L df)); [apply rows_from_after_cast_filter|].
  apply (rows_from_trans _ _ _ d7); [exact H7 | apply rows_from_normalize_text].
Qed.

End Output.

(** ** Index labels: which records a filter removes *)

Lemma label_unique (l : list Row) r1 r2 :
  NoDup (map label l) -> In r1 l -> In r2 l -> label r1 = label r2 -> r1 = r2.
Proof.
  induction l as [|x l IH]; simpl; [tauto|]. intros Hnd H1 H2 Heq.
  apply NoDup_cons in Hnd as [Hx Hnd].
  assert (Hl : forall r, In r l -> label r <> label x).
  { intros r Hr E. apply Hx. rewrite <- E. apply list_elem_of_In, in_map, Hr. }
  destruct H1 as [->|H1], H2 as [->|H2]; auto.
  - exfalso. eapply Hl; eauto.
  - exfalso. eapply Hl; eauto.
Qed.

Lemma labels_within_refl df : labels_within df df.
Proof. intros r Hr. eauto. Qed.

Lemma labels_within_trans df1 df2 df3 :
  labels_within df1 df2 -> labels_within df2 df3 -> labels_within df1 df3.
Proof.
  intros H12 H23 r3 Hr3. destruct (H23 r3 Hr3) as (r2 & Hr2 & E2).
  destruct (H12 r2 Hr2) as (r1 & Hr1 & E1). exists r1. split; [assumption | congruence].
Qed.

Lemma labels_within_rows_from cs df df' : rows_from cs df df' -> labels_within df df'.
Proof. intros H r' Hr'. destruct (H r' Hr') as (r & Hr & E & _). eauto. Qed.

Lemma labels_within_subset df df' :
  (forall r, In r (rows df') -> In r (rows df)) -> labels_within df df'.
Proof. intros H r Hr. eauto. Qed.

Lemma labels_within_In df df' n : labels_within df df' -> In n (labels df') -> In n (labels df).
Proof.
  intros H Hn. apply in_map_iff in Hn as (r' & <- & Hr').
  destruct (H r' Hr') as (r & Hr & ->). now apply in_map.
Qed.

Lemma labels_apply_column c f df : labels (apply_column c f df) = labels df.
Proof. unfold labels, apply_column. cbn [rows]. now rewrite map_map. Qed.

Lemma labels_applymap f df : labels (applymap f df) = labels df.
Proof. unfold labels, applymap. cbn [rows]. now rewrite map_map. Qed.

Lemma labels_drop_unused df : labels (drop_unused_columns df) = labels df.
Proof. unfold labels, drop_unused_columns, drop_columns. cbn [rows]. now rewrite map_map. Qed.

Lemma NoDup_labels_filter_rows k df : NoDup (labels df) -> NoDup (labels (filter_rows k df)).
Proof. apply NoDup_map_filter. Qed.

Section Filters.

Variable L : PyLib.

Lemma labels_within_main df out :
  main L df = OK out -> labels_within (after_cast_filter L df) out.
Proof.
  intros Hmain. apply main_stages in Hmain as (d7 & d9 & d10 & H7 & H9 & H10 & ->).
  apply clean_release_year_rows in H7 as [_ H7].
  apply remove_duplicates_rows in H9 as [_ H9].
  apply sort_stage_rows in H10 as [_ H10].
  apply (labels_within_trans _ d7); [eapply labels_within_rows_from, H7|].
  apply (labels_within_trans _ (normalize_text L d7));
    [eapply labels_within_rows_from, rows_from_normalize_text|].
  apply (labels_within_trans _ d9); [now apply labels_within_subset|].
  apply (labels_within_trans _ d10); [now apply labels_within_subset|].
  intros r' Hr'. apply rows_reescape in Hr' as (r & Hr & ->). eauto.
Qed.

Lemma labels_within_before_fill df :
  labels_within (keep_only_movies L (drop_unused_columns df)) (before_fill L df).
Proof.
  unfold before_fill. intros r' Hr'. apply rows_dropna in Hr' as [Hr' _].
  apply rows_standardize_strings in Hr' as (r & Hr & E & _). eauto.
Qed.

Lemma labels_within_after_cast_filter df :
  labels_within (before_fill L df) (after_cast_filter L df).
Proof. eapply labels_within_rows_from, rows_from_after_cast_filter. Qed.

Lemma NoDup_labels_keep_only_movies df :
  NoDup (labels df) -> NoDup (labels (keep_only_movies L df)).
Proof.
  intros H. unfold keep_only_movies. destruct (has_column df c_type); [|assumption].
  apply NoDup_labels_filter_rows. now rewrite labels_apply_column.
Qed.

Lemma NoDup_labels_before_fill df :
  NoDup (labels df) -> NoDup (labels (before_fill L df)).
Proof.
  intros H. unfold before_fill, dropna. apply NoDup_labels_filter_rows.
  unfold standardize_strings. rewrite !labels_applymap.
  apply NoDup_labels_keep_only_movies. now rewrite labels_drop_unused.
Qed.

(** *** The category filter *)

Lemma rows_keep_only_movies df r' :
  c_type ∈ columns df ->
  In r' (rows (keep_only_movies L df)) <->
  exists r, In r (rows df) /\ r' = set_cell r c_type (VStr (py "movie"))
            /\ str_lower L (str_strip (py_str L (cell r c_type))) = py "movie".
Proof.
  intros Hc. apply has_column_true in Hc. unfold keep_only_movies. rewrite Hc.
  cbn [rows filter_rows apply_column]. rewrite filter_In, in_map_iff.
  assert (Hk : forall r, is_movie (set_cell r c_type (normalize_type L (cell r c_type))) = true
                <-> str_lower L (str_strip (py_str L (cell r c_type))) = py "movie").
  { intros r. unfold is_movie. rewrite cell_set_cell_eq, bool_decide_eq_true.
    unfold normalize_type. split; [now intros [= ->] | now intros ->]. }
  split.
  - intros [(r & <- & Hr) Hkeep]. exists r. apply Hk in Hkeep.
    split; [assumption|]. split; [|assumption]. unfold normalize_type. now rewrite Hkeep.
  - intros (r & Hr & -> & Hm). split; [|].
    + exists r. split; [|assumption]. unfold normalize_type. now rewrite Hm.
    + rewrite <- Hm at 1. apply Hk in Hm. unfold normalize_type in Hm. exact Hm.
Qed.

Lemma missing_type_not_movie v :
  missing_or_sentinel v -> str_lower L (str_strip (py_str L v)) <> py "movie".
Proof.
  intros [Hna | (s & -> & Hs)].
  - destruct v as [s|z|f| |]; try discriminate Hna.
    + destruct f; try discriminate Hna. vm_compute. discriminate.
    + vm_compute. discriminate.
    + vm_compute. discriminate.
  - cbn [py_str]. unfold sentinels in Hs.
    repeat (apply elem_of_cons in Hs as [->|Hs]; [vm_compute; discriminate|]).
    now apply elem_of_nil in Hs.
Qed.

(** C10.  With a [type] column, a record whose [type] is missing or one of
    the sentinel literals is removed by the category filter, which runs
    before the sentinels are normalized: a missing value is turned into the
    string ["nan"] and no such value compares equal to ["movie"].  The
    record is absent from the filtered table and from the final table. *)
Theorem missing_type_removed (df : DataFrame) (r : Row) :
  c_type ∈ columns df -> NoDup (labels df) -> In r (rows df) ->
  missing_or_sentinel (cell r c_type) ->
  (cell r c_type = VFloat NaN -> normalize_type L (cell r c_type) = VStr (py "nan"))
  /\ normalize_type L (cell r c_type) <> VStr (py "movie")
  /\ ~ In (label r) (labels (keep_only_movies L (drop_unused_columns df)))
  /\ forall out, main L df = OK out -> ~ In (label r) (labels out).
Proof.
  intros Hcol Hnd Hr Hmiss.
  assert (Hnot := missing_type_not_movie _ Hmiss).
  assert (Hgone : ~ In (label r) (labels (keep_only_movies L (drop_unused_columns df)))).
  { intros Hin. apply in_map_iff in Hin as (r' & Hl & Hr').
    apply rows_keep_only_movies in Hr' as (rd & Hrd & -> & Hm).
    2:{ apply columns_drop_unused; [|assumption].
        apply (bool_decide_unpack (c_type ∉ drop_cols)). vm_compute. exact I. }
    destruct (rows_from_drop_unused df rd Hrd) as (r0 & Hr0 & Hl0 & Hsame).
    cbn [label set_cell] in Hl.
    assert (r0 = r) as -> by (apply (label_unique (rows df)); auto; congruence).
    rewrite Hsame in Hm; [contradiction|].
    apply (bool_decide_unpack (c_type ∉ drop_cols)). vm_compute. exact I. }
  split; [|split; [|split]].
  - intros ->. reflexivity.
  - unfold normalize_type. congruence.
  - exact Hgone.
  - intros out Hmain Hin. apply Hgone.
    eapply labels_within_In, (labels_within_In _ _ _ (labels_within_main df out Hmain) Hin).
    eapply labels_within_trans; [apply labels_within_before_fill|].
    apply labels_within_after_cast_filter.
Qed.

(** C8 (amended).  The category filter stores the trimmed, lower-cased
    string back into [type]: a record is retained exactly when that string
    is ["movie"], its stored [type] is then ["movie"] whatever the raw
    spelling was, and its other fields are unchanged. *)
Theorem category_filter_rewrites_type (df : DataFrame) (r' : Row) :
  c_type ∈ columns df -> In r' (rows (keep_only_movies L df)) ->
  cell r' c_type = VStr (py "movie")
  /\ exists r, In r (rows df)
       /\ str_lower L (str_strip (py_str L (cell r c_type))) = py "movie"
       /\ label r' = label r
       /\ cells r' = <[c_type := VStr (py "movie")]> (cells r)
       /\ forall c, c <> c_type -> cell r' c = cell r c.
Proof.
  intros Hcol Hr'. apply (rows_keep_only_movies df r' Hcol) in Hr' as (r & Hr & -> & Hm).
  split; [apply cell_set_cell_eq|].
  exists r. repeat split; auto.
  intros c Hc. apply cell_set_cell_ne. congruence.
Qed.

End Filters.

(** ** The cast filter *)

Section CastFilter.

Variable L : PyLib.

Lemma after_fill_rows df :
  rows (after_fill L df) = map (apply_all (fill_plan (before_fill L df))) (rows (before_fill L df)).
Proof. unfold after_fill. now rewrite fill_missing_rows. Qed.

Lemma filled_cast df r :
  c_cast ∈ columns (before_fill L df) -> isna (cell r c_cast) = true ->
  cell (apply_all (fill_plan (before_fill L df)) r) c_cast = VStr (py "Unknown").
Proof.
  intros Hcol Hna.
  rewrite (apply_all_at _ r c_cast (fillna (VStr (py "Unknown")))).
  - unfold fillna. now rewrite Hna.
  - apply fill_plan_NoDup.
  - unfold fill_plan. apply in_map_iff. exists (c_cast, py "Unknown").
    split; [reflexivity|]. apply filter_In. split.
    + unfold fill_defaults. simpl. tauto.
    + now apply has_column_true.
Qed.

(** C3 (amended).  With a [cast] column: a record whose [cast] is missing
    when the defaults are filled gets the literal ["Unknown"] and is then
    removed by the cast filter, so it is absent from the final table; and no
    record passes the cast filter with a [cast] that compares
    case-insensitively equal to ["unknown"]. *)
Theorem unknown_cast_removed (df out : DataFrame) :
  c_cast ∈ columns df -> NoDup (labels df) -> main L df = OK out ->
  (forall r, In r (rows (before_fill L df)) -> isna (cell r c_cast) = true ->
     (exists r1, In r1 (rows (after_fill L df)) /\ label r1 = label r
                 /\ cell r1 c_cast = VStr (py "Unknown"))
     /\ ~ In (label r) (labels (after_cast_filter L df))
     /\ ~ In (label r) (labels out))
  /\ (forall r2, In r2 (rows (after_cast_filter L df)) ->
        exists s, cell r2 c_cast = VStr s /\ str_lower L s <> py "unknown").
Proof.
  intros Hcol Hnd Hmain.
  assert (Hcol0 : c_cast ∈ columns (before_fill L df)).
  { rewrite columns_before_fill. apply columns_drop_unused; [|assumption].
    apply (bool_decide_unpack (c_cast ∉ drop_cols)). vm_compute. exact I. }
  assert (Hcol1 : c_cast ∈ columns (after_fill L df)).
  { unfold after_fill. now rewrite columns_fill_missing. }
  split.
  - intros r Hr Hna.
    assert (Hgone : ~ In (label r) (labels (after_cast_filter L df))).
    { intros Hin. apply in_map_iff in Hin as (r2 & Hl & Hr2).
      apply (rows_remove_unknown_cast L _ r2 Hcol1) in Hr2 as (r1 & Hr1 & -> & Hne).
      rewrite after_fill_rows in Hr1. apply in_map_iff in Hr1 as (r0 & <- & Hr0).
      cbn [label set_cell] in Hl. rewrite apply_all_label in Hl.
      assert (r0 = r) as ->.
      { apply (label_unique (rows (before_fill L df))); auto.
        now apply NoDup_labels_before_fill. }
      rewrite (filled_cast df r Hcol0 Hna) in Hne. apply Hne. reflexivity. }
    split; [|split; [exact Hgone|]].
    + exists (apply_all (fill_plan (before_fill L df)) r).
      split; [rewrite after_fill_rows; now apply in_map|].
      split; [apply apply_all_label | now apply filled_cast].
    + intros Hin. apply Hgone.
      eapply labels_within_In, Hin. now apply labels_within_main.
  - intros r2 Hr2.
    apply (rows_remove_unknown_cast L _ r2 Hcol1) in Hr2 as (r1 & Hr1 & -> & Hne).
    rewrite cell_set_cell_eq. unfold cast_as_str. eauto.
Qed.

End CastFilter.

(** ** Integers stored as float64 *)

Local Open Scope Z_scope.

Ltac z_norm :=
  change IntDef.Z.sub with Z.sub in *; change IntDef.Z.add with Z.add in *;
  change IntDef.Z.max with Z.max in *; change IntDef.Z.leb with Z.leb in *;
  change @PosDef.Pos.iter with @Pos.iter in *.

Lemma digits2_iter k m : digits2_pos (Pos.iter xO m k) = (digits2_pos m + k)%positive.
Proof.
  induction k using Pos.peano_ind.
  - simpl. lia.
  - rewrite Pos.iter_succ. simpl. rewrite IHk. lia.
Qed.

Lemma Zpos_iter k m : Zpos (Pos.iter xO m k) = Zpos m * 2 ^ Zpos k.
Proof.
  induction k using Pos.peano_ind.
  - simpl. lia.
  - rewrite Pos.iter_succ. rewrite Pos2Z.inj_xO, IHk.
    rewrite Pos2Z.inj_succ, Z.pow_succ_r by lia. lia.
Qed.

Lemma digits2_le m n : Zpos m < 2 ^ n -> Zpos (digits2_pos m) <= n.
Proof.
  revert n. induction m; intros n H; simpl digits2_pos; rewrite ?Pos2Z.inj_succ.
  - destruct (Z_lt_le_dec n 1) as [Hn|Hn].
    + assert (2 ^ n <= 1)
        by (destruct (Z.eq_dec n 0) as [->|]; [now cbv | rewrite Z.pow_neg_r by lia; lia]).
      lia.
    + specialize (IHm (n - 1)). replace n with (Z.succ (n - 1)) in H by lia.
      rewrite Z.pow_succ_r in H by lia. lia.
  - destruct (Z_lt_le_dec n 1) as [Hn|Hn].
    + assert (2 ^ n <= 1)
        by (destruct (Z.eq_dec n 0) as [->|]; [now cbv | rewrite Z.pow_neg_r by lia; lia]).
      lia.
    + specialize (IHm (n - 1)). replace n with (Z.succ (n - 1)) in H by lia.
      rewrite Z.pow_succ_r in H by lia. lia.
  - destruct (Z_lt_le_dec n 1) as [Hn|Hn]; [|lia].
    assert (2 ^ n <= 1)
        by (destruct (Z.eq_dec n 0) as [->|]; [now cbv | rewrite Z.pow_neg_r by lia; lia]).
      lia.
Qed.

Lemma shr_zero r e : shr r e 0 = (r, e).
Proof. reflexivity. Qed.

(** A mantissa of exactly 53 bits is stored as it is. *)
Lemma binary_round_aux_exact s mz ez :
  Zpos (digits2_pos mz) = 53 -> -1074 <= ez <= 971 ->
  binary_round_aux 53 1024 s (Zpos mz) ez loc_Exact = S754_finite s mz ez.
Proof.
  intros Hd He.
  assert (Hz : fexp 53 1024 (Zdigits2 (Zpos mz) + ez) - ez = 0).
  { unfold fexp, emin. simpl Zdigits2. lia. }
  unfold binary_round_aux, shr_fexp. z_norm.
  rewrite Hz, shr_zero. cbv beta iota.
  unfold shr_record_of_loc at 2. unfold loc_of_shr_record, round_nearest_even.
  unfold shr_record_of_loc. cbn [shr_m shr_r shr_s]. cbv beta iota.
  rewrite Hz, shr_zero. cbv beta iota. cbn [shr_m].
  destruct (Z.leb_spec ez (1024 - 53)); [reflexivity | lia].
Qed.

Lemma binary_round_small s m :
  Zpos m < 2 ^ 53 ->
  exists mz ez, binary_round 53 1024 s m 0 = S754_finite s mz ez
                /\ Z.shiftl (Zpos mz) ez = Zpos m.
Proof.
  intros Hm.
  assert (Hd : Zpos (digits2_pos m) <= 53) by (apply digits2_le; lia).
  unfold binary_round.
  assert (Hf : fexp 53 1024 (Zpos (digits2_pos m) + 0) = Zpos (digits2_pos m) - 53).
  { unfold fexp, emin. lia. }
  z_norm. rewrite Hf. unfold shl_align. z_norm.
  destruct (Zpos (digits2_pos m) - 53 - 0) as [|k|k] eqn:Ek; try lia.
  - rewrite binary_round_aux_exact by lia. eexists _, _. split; [reflexivity|].
    apply Z.shiftl_0_r.
  - rewrite binary_round_aux_exact by (rewrite ?digits2_iter; lia).
    eexists _, _. split; [reflexivity|].
    replace (Zpos (digits2_pos m) - 53) with (- Zpos k) by lia.
    rewrite Zpos_iter, Z.shiftl_div_pow2, Z.opp_involutive by lia.
    apply Z.div_mul. apply Z.pow_nonzero; lia.
Qed.

(** An integer below [2^53] in magnitude survives the passage through
    float64 unchanged. *)
Lemma float_of_Z_exact z :
  Z.abs z < 2 ^ 53 -> is_finite (float_of_Z z) = true /\ float_trunc (float_of_Z z) = z.
Proof.
  intros Hz. unfold float_of_Z, binary_normalize. destruct z as [|m|m].
  - split; reflexivity.
  - destruct (binary_round_small false m) as (mz & ez & -> & E); [lia|].
    split; [reflexivity|]. simpl. exact E.
  - destruct (binary_round_small true m) as (mz & ez & -> & E); [lia|].
    split; [reflexivity|]. simpl. rewrite E. reflexivity.
Qed.

Lemma py_int_OK f z : py_int f = OK z -> is_finite f = true /\ z = float_trunc f.
Proof. destruct f; simpl; intros H; try discriminate; injection H as <-; auto. Qed.

Lemma astype_int_OK f z : astype_int f = OK z -> is_finite f = true /\ z = int64_of_float f.
Proof.
  unfold astype_int. destruct (is_finite f); [|discriminate].
  intros [= <-]. auto.
Qed.

Ltac pow_norm :=
  change (2 ^ 53) with 9007199254740992 in *;
  change (2 ^ 63) with 9223372036854775808 in *;
  change (2 ^ 64) with 18446744073709551616 in *.

Lemma in_int64_small z : Z.abs z < 2 ^ 53 -> in_int64 z = true.
Proof.
  intros H. unfold in_int64. pow_norm.
  apply andb_true_iff. rewrite Z.leb_le, Z.ltb_lt. lia.
Qed.

(** On an integer that float64 holds exactly, the two casts give the
    integer back. *)
Lemma int64_of_float_exact z : Z.abs z < 2 ^ 53 -> int64_of_float (float_of_Z z) = z.
Proof.
  intros H. unfold int64_of_float. rewrite (proj2 (float_of_Z_exact z H)).
  now rewrite in_int64_small.
Qed.

Lemma wrap_int64_small z : Z.abs z < 2 ^ 53 -> wrap_int64 z = z.
Proof.
  intros H. unfold wrap_int64. pow_norm. rewrite Z.mod_small by lia. lia.
Qed.

Lemma Forall2_impl_In {A B} (R R' : A -> B -> Prop) l l' :
  (forall x y, In x l -> R x y -> R' x y) -> Forall2 R l l' -> Forall2 R' l l'.
Proof.
  intros H HF. induction HF as [|x y l l' HR HF IH]; constructor.
  - apply H; [left; reflexivity | assumption].
  - apply IH. intros x' y' Hx'. apply H. now right.
Qed.

(** ** The numeric column *)

Section Numeric.

Variable L : PyLib.

Lemma median_year_OK col year :
  median_year col = OK year ->
  (present col = [] /\ year = 2000)
  \/ (present col <> [] /\ is_finite (median (present col)) = true
      /\ year = float_trunc (median (present col))).
Proof.
  unfold median_year. fold (present col). destruct (present col) as [|f fs] eqn:E.
  - intros [= <-]. auto.
  - intros H. apply py_int_OK in H. right. split; [discriminate | exact H].
Qed.

Lemma coerce_year_int all_int year n v :
  coerce_year all_int year n = OK v -> exists z, v = VInt z.
Proof.
  unfold coerce_year. destruct n as [z|f].
  - destruct all_int; [intros [= <-]; eauto|].
    intros H. apply fmap_OK_inv in H as (z' & _ & ->). eauto.
  - intros H. apply fmap_OK_inv in H as (z' & _ & ->). eauto.
Qed.

Lemma coerce_year_exact all_int year n v :
  exactly_representable year ->
  (forall z, n = NumInt z -> exactly_representable z) ->
  coerce_year all_int year n = OK v -> v = VInt (year_of year n).
Proof.
  intros Hy Hn. unfold coerce_year. destruct n as [z|f].
  - destruct all_int.
    + intros [= <-]. cbn [year_of]. now rewrite (wrap_int64_small z (Hn z eq_refl)).
    + intros H. apply fmap_OK_inv in H as (z' & H & ->).
      apply astype_int_OK in H as [_ ->].
      cbn [year_of]. now rewrite (int64_of_float_exact z (Hn z eq_refl)).
  - intros H. apply fmap_OK_inv in H as (z' & H & ->).
    apply astype_int_OK in H as [_ ->]. cbn [year_of]. destruct (is_nan f); [|reflexivity].
    now rewrite (int64_of_float_exact year Hy).
Qed.

(** C4 (amended).  With a [release_year] column, when the numeric step
    completes: each value is converted to a number, integer or not, and a
    string that is no number counts as missing; the fill value is the
    integer part of the median of the converted values, or 2000 when there
    is none; [release_year] is an integer in every record; and, the integers
    involved being exactly representable in float64, a converted value is
    kept, truncated toward zero (cast to [-2^63] when its integer part does
    not fit 64 bits), while a missing or unconvertible value is replaced by
    the fill value. *)
Theorem release_year_coerced (df df' : DataFrame) :
  c_release_year ∈ columns df ->
  clean_release_year L df = OK df' ->
  exists fill,
    ((present (year_numbers L df) = [] /\ fill = 2000)
     \/ (present (year_numbers L df) <> []
         /\ is_finite (median (present (year_numbers L df))) = true
         /\ fill = float_trunc (median (present (year_numbers L df)))))
    /\ Forall (fun r' => exists z, cell r' c_release_year = VInt z) (rows df')
    /\ (exactly_representable fill ->
        (forall z, In (NumInt z) (year_numbers L df) -> exactly_representable z) ->
        Forall2 (fun r r' =>
                   r' = set_cell r c_release_year
                          (VInt (year_of fill (to_numeric L (cell r c_release_year)))))
                (rows df) (rows df')).
Proof.
  intros Hcol H. apply has_column_true in Hcol.
  unfold clean_release_year in H. rewrite Hcol in H. fold (year_numbers L df) in H.
  cbv zeta in H. destruct (uint64_conflict (year_numbers L df)); [discriminate|].
  apply bind_OK_inv in H as (fill & Hfill & H).
  apply bind_OK_inv in H as (rows' & Hrows & H). injection H as <-.
  apply traverse_OK_inv in Hrows. cbn [rows].
  exists fill. split; [now apply median_year_OK|]. split.
  - apply Forall_forall. intros r' Hr'. apply list_elem_of_In in Hr'.
    destruct (Forall2_In_r _ _ _ _ Hrows Hr') as (r & _ & Hr).
    apply bind_OK_inv in Hr as (v & Hv & Hr). injection Hr as <-.
    rewrite cell_set_cell_eq. eapply coerce_year_int, Hv.
  - intros Hexact Hints. eapply Forall2_impl_In, Hrows.
    intros r r' Hr Hrr'. cbv beta in Hrr'.
    apply bind_OK_inv in Hrr' as (v & Hv & Hrr'). injection Hrr' as <-.
    apply coerce_year_exact in Hv; [now subst v | assumption |].
    intros z Hz. apply Hints. unfold year_numbers. apply in_map_iff. eauto.
Qed.

End Numeric.

Local Close Scope Z_scope.

(** ** The sort *)

Lemma str_compare_refl s : str_compare s s = Eq.
Proof. induction s as [|c s IH]; simpl; [reflexivity|]. now rewrite N.compare_refl. Qed.

Lemma value_compare_refl v : value_compare v v = Eq.
Proof.
  destruct v; simpl; auto using Z.compare_refl, str_compare_refl.
Qed.

Lemma key_compare_refl k : key_compare k k = Eq.
Proof. induction k as [|v k IH]; simpl; [reflexivity|]. now rewrite value_compare_refl. Qed.

Lemma str_compare_antisym a b : str_compare b a = CompOpp (str_compare a b).
Proof.
  revert b. induction a as [|x a IH]; intros [|y b]; simpl; try reflexivity.
  rewrite (N.compare_antisym x y). destruct (x ?= y)%N; simpl; auto.
Qed.

Lemma value_compare_antisym a b : value_compare b a = CompOpp (value_compare a b).
Proof.
  destruct a, b; simpl; try reflexivity.
  - apply str_compare_antisym.
  - apply Z.compare_antisym.
Qed.

Lemma key_compare_antisym a b : key_compare b a = CompOpp (key_compare a b).
Proof.
  revert b. induction a as [|x a IH]; intros [|y b]; simpl; try reflexivity.
  rewrite (value_compare_antisym x y). destruct (value_compare x y); simpl; auto.
Qed.

Lemma key_leb_total a b : key_leb a b = false -> key_leb b a = true.
Proof.
  unfold key_leb. rewrite (key_compare_antisym a b).
  destruct (key_compare a b); simpl; congruence.
Qed.

Lemma key_leb_false_ne a b : key_leb a b = false -> a <> b.
Proof. intros H ->. unfold key_leb in H. now rewrite key_compare_refl in H. Qed.

Lemma insert_row_HdRel by_ a r l :
  key_le by_ a r -> HdRel (key_le by_) a l -> HdRel (key_le by_) a (insert_row by_ r l).
Proof.
  intros Har Hl. destruct l as [|x l]; simpl; [now constructor|].
  destruct (key_leb _ _); constructor; [assumption|]. now inversion Hl.
Qed.

Lemma insert_row_sorted by_ r l : sorted_by by_ l -> sorted_by by_ (insert_row by_ r l).
Proof.
  unfold sorted_by. induction 1 as [|x l Hs IH Hhd]; simpl.
  - repeat constructor.
  - destruct (key_leb (row_key by_ r) (row_key by_ x)) eqn:E.
    + constructor; [now constructor|]. now constructor.
    + constructor; [assumption|].
      apply insert_row_HdRel; [|assumption]. now apply key_leb_total.
Qed.

Lemma lexsort_sorted by_ l : sorted_by by_ (lexsort by_ l).
Proof.
  induction l as [|x l IH]; simpl; [constructor|]. now apply insert_row_sorted.
Qed.

Lemma insert_row_filter by_ k r l :
  List.filter (fun x => bool_decide (row_key by_ x = k)) (insert_row by_ r l)
  = List.filter (fun x => bool_decide (row_key by_ x = k)) (r :: l).
Proof.
  induction l as [|x l IH]; [reflexivity|].
  cbn [insert_row]. destruct (key_leb (row_key by_ r) (row_key by_ x)) eqn:E; [reflexivity|].
  apply key_leb_false_ne in E.
  cbn [List.filter] in *. rewrite IH.
  destruct (bool_decide_reflect (row_key by_ r = k)), (bool_decide_reflect (row_key by_ x = k));
    congruence.
Qed.

Lemma lexsort_stable by_ l : stable by_ l (lexsort by_ l).
Proof.
  intros k. induction l as [|x l IH]; [reflexivity|].
  cbn [lexsort foldr]. rewrite insert_row_filter. cbn [List.filter].
  fold (lexsort by_ l). now rewrite IH.
Qed.

Lemma map_nth_seq {A} (l : list A) (d : A) : map (fun i => nth i l d) (seq 0 (length l)) = l.
Proof.
  induction l as [|x l IH]; [reflexivity|].
  cbn [length seq map nth]. f_equal. rewrite <- seq_shift, map_map. exact IH.
Qed.

Lemma take_rows_map indexer l l' :
  take_rows indexer l = OK l' -> l' = map (fun i => nth i l (mkRow 0 ∅)) indexer.
Proof.
  intros H. apply traverse_OK_inv in H.
  induction H as [|i r idx l' Hi _ IH]; [reflexivity|].
  cbn [map]. f_equal; [|exact IH].
  destruct (l !! i) as [r0|] eqn:E; [|discriminate]. injection Hi as <-.
  symmetry. apply nth_lookup_Some with (d := mkRow 0 ∅) in E. exact E.
Qed.

Lemma Sorted_map {A B} (R : B -> B -> Prop) (f : A -> B) l :
  Sorted (fun x y => R (f x) (f y)) l -> Sorted R (map f l).
Proof.
  induction 1 as [|x l Hs IH Hhd]; simpl; constructor; [assumption|].
  destruct Hhd; simpl; now constructor.
Qed.

Lemma Sorted_impl_In {A} (R R' : A -> A -> Prop) l :
  (forall x y, In x l -> In y l -> R x y -> R' x y) -> Sorted R l -> Sorted R' l.
Proof.
  intros H Hs. induction Hs as [|x l Hs IH Hhd]; constructor.
  - apply IH. intros a b Ha Hb. apply H; now right.
  - destruct Hhd as [|y l' Hxy]; constructor. apply H; simpl; auto.
Qed.

Lemma is_argsort_check keys indexer :
  NoDup indexer -> length indexer = length keys ->
  Forall (fun i => (i < length keys)%nat) indexer ->
  Sorted (fun i j => value_compare (keys !!! i) (keys !!! j) <> Gt) indexer ->
  is_argsort keys indexer.
Proof.
  intros Hnd Hlen Hlt Hs. split; [|exact Hs].
  apply NoDup_Permutation_bis.
  - now apply NoDup_ListNoDup.
  - rewrite length_seq. lia.
  - intros i Hi. apply in_seq. rewrite Forall_forall in Hlt.
    apply list_elem_of_In, Hlt in Hi. lia.
Qed.

Lemma existing_sort_columns df :
  existing df sort_columns
  = (if has_column df c_release_year then [c_release_year] else [])
    ++ (if has_column df c_title then [c_title] else []).
Proof.
  unfold existing, sort_columns. cbn [List.filter].
  destruct (has_column df c_release_year), (has_column df c_title); reflexivity.
Qed.

Section Sort.

Variable L : PyLib.

Lemma sort_single_key c df df' :
  sort_values L [c] df = OK df' ->
  is_argsort (map (fun r => cell r c) (rows df))
             (argsort_quicksort L (map (fun r => cell r c) (rows df))) ->
  Permutation (rows df) (rows df') /\ sorted_by [c] (rows df').
Proof.
  unfold sort_values. intros H [Hperm Hsorted].
  apply bind_OK_inv in H as (rows' & Hrows & H). injection H as <-. cbn [rows].
  apply take_rows_map in Hrows. subst rows'.
  set (keys := map (fun r => cell r c) (rows df)) in *.
  set (nth_row := fun i => nth i (rows df) (mkRow 0 ∅)).
  split.
  - rewrite <- (map_nth_seq (rows df) (mkRow 0 ∅)) at 1.
    apply Permutation_map. symmetry. revert Hperm. unfold keys. now rewrite length_map.
  - apply Sorted_map. eapply Sorted_impl_In, Hsorted.
    intros i j Hi Hj Hij. cbv beta in Hij.
    assert (Hkey : forall n, In n (argsort_quicksort L keys) -> keys !!! n = cell (nth_row n) c).
    { intros n Hn. apply (Permutation_in _ Hperm), in_seq in Hn.
      unfold keys in *. rewrite length_map in Hn.
      destruct (lookup_lt_is_Some_2 (rows df) n) as [r Hr]; [lia|].
      rewrite (list_lookup_total_correct _ n (cell r c)) by now rewrite list_lookup_fmap, Hr.
      unfold nth_row. now rewrite (nth_lookup_Some _ _ _ _ Hr). }
    rewrite (Hkey i Hi), (Hkey j Hj) in Hij.
    unfold key_le, key_leb, row_key. cbn [map key_compare].
    destruct (value_compare _ _); congruence.
Qed.

(** C7 (amended).  The sort stage orders the table ascending on the tuple
    of whichever of [release_year] and [title] exist, in that priority.
    With neither column the table is unchanged.  With both, the sort is
    stable: the result is a permutation in ascending order in which records
    of equal key keep their relative order.  With exactly one, the table
    goes through the default single-column quicksort: the result is a
    permutation in ascending order ([argsort] meeting its contract), with
    no promise on the order of records of equal key. *)
Theorem sort_stage_order (df df' : DataFrame) :
  sort_stage L df = OK df' ->
  columns df' = columns df
  /\ (c_release_year ∉ columns df -> c_title ∉ columns df -> df' = df)
  /\ (c_release_year ∈ columns df -> c_title ∈ columns df ->
      Permutation (rows df) (rows df')
      /\ sorted_by [c_release_year; c_title] (rows df')
      /\ stable [c_release_year; c_title] (rows df) (rows df'))
  /\ (forall c, existing df sort_columns = [c] ->
      is_argsort (map (fun r => cell r c) (rows df))
                 (argsort_quicksort L (map (fun r => cell r c) (rows df))) ->
      Permutation (rows df) (rows df') /\ sorted_by [c] (rows df')).
Proof.
  intros H. split; [now apply sort_stage_rows in H|].
  unfold sort_stage in H. rewrite existing_sort_columns in *.
  split; [|split].
  - intros Hy Ht. rewrite <- has_column_true in Hy, Ht.
    apply not_true_is_false in Hy, Ht. rewrite Hy, Ht in H. now injection H as <-.
  - intros Hy Ht. apply has_column_true in Hy, Ht. rewrite Hy, Ht in H.
    cbn [app sort_values] in H. injection H as <-. cbn [rows].
    split; [apply lexsort_perm|]. split; [apply lexsort_sorted | apply lexsort_stable].
  - intros c Hc Hsort. rewrite Hc in H. now apply (sort_single_key c df df').
Qed.

End Sort.

(** ** The pipeline returns *)



Section Returns.

Variable L : PyLib.



End Returns.

(** * Examples *)

Lemma catalogue_main : main ref_lib catalogue = OK catalogue_out.
Proof. vm_compute. reflexivity. Qed.

Lemma catalogue_grid :
  to_grid catalogue_out
  = [ (7%nat, [str "s8"; str "movie"; str "Alpha"; str "G. Director"; str "H. Actor";
               str "Japan"; VInt 2010; str "110 min"; str "Action"]);
      (0%nat, [str "s1"; str "movie"; str "Her;"; str "Spike Jonze";
               str "J. Phoenix; A. Adams"; str "United States"; VInt 2013;
               str "126 min"; str "Dramas; Romantic  Movies"]);
      (4%nat, [str "s5"; str "movie"; str "Up Down"; str "Unknown"; str "D. Actor";
               str "Unknown"; VInt 2013; str "95 min"; str "Unknown"]) ].
Proof. vm_compute. reflexivity. Qed.

(** C1 on the catalogue. *)
Lemma output_no_separator_catalogue :
  main ref_lib catalogue = OK catalogue_out
  /\ forall r c s, In r (rows catalogue_out) -> cells r !! c = Some (VStr s) -> no_separator s.
Proof.
  assert (H : main ref_lib catalogue = OK catalogue_out) by (vm_compute; reflexivity).
  split; [exact H|]. exact (output_no_separator ref_lib catalogue catalogue_out H).
Defined.

(** C5, as stated, fails: a title of blanks is trimmed to the empty string,
    which is not missing, and the record reaches the output with an empty
    title. *)
Lemma empty_title_in_output :
  grid_of (main ref_lib blank_title) = OK [ (0%nat, [str "s1"; VStr []]) ].
Proof. vm_compute. reflexivity. Qed.

(** C3 on the catalogue: record 2 has no cast. *)
Lemma unknown_cast_removed_catalogue :
  c_cast ∈ columns catalogue /\ NoDup (labels catalogue)
  /\ main ref_lib catalogue = OK catalogue_out
  /\ (forall r, In r (rows (before_fill ref_lib catalogue)) -> isna (cell r c_cast) = true ->
        (exists r1, In r1 (rows (after_fill ref_lib catalogue)) /\ label r1 = label r
                    /\ cell r1 c_cast = VStr (py "Unknown"))
        /\ ~ In (label r) (labels (after_cast_filter ref_lib catalogue))
        /\ ~ In (label r) (labels catalogue_out))
  /\ (forall r2, In r2 (rows (after_cast_filter ref_lib catalogue)) ->
        exists s, cell r2 c_cast = VStr s /\ str_lower ref_lib s <> py "unknown").
Proof.
  assert (H1 : c_cast ∈ columns catalogue)
    by (apply (bool_decide_unpack _); vm_compute; exact I).
  assert (H2 : NoDup (labels catalogue))
    by (apply (bool_decide_unpack _); vm_compute; exact I).
  assert (H3 : main ref_lib catalogue = OK catalogue_out) by (vm_compute; reflexivity).
  split; [exact H1|]. split; [exact H2|]. split; [exact H3|].
  exact (unknown_cast_removed ref_lib catalogue catalogue_out H1 H2 H3).
Defined.

(** C3, as stated, fails on the output: the cast ["Unknown™"] is not equal
    to ["unknown"] when the filter runs, and the text clean then drops the
    trade-mark sign. *)
Lemma unknown_cast_in_output :
  grid_of (main ref_lib trademark_cast) = OK [ (0%nat, [str "s1"; str "Her"; str "Unknown"]) ]
  /\ str_lower ref_lib (py "Unknown") = py "unknown".
Proof. split; vm_compute; reflexivity. Qed.

(** C10 on the catalogue: record 5 has no type. *)
Lemma missing_type_removed_catalogue :
  c_type ∈ columns catalogue /\ NoDup (labels catalogue)
  /\ In untyped_record (rows catalogue)
  /\ missing_or_sentinel (cell untyped_record c_type)
  /\ normalize_type ref_lib (cell untyped_record c_type) = VStr (py "nan")
  /\ ~ In (label untyped_record) (labels (keep_only_movies ref_lib (drop_unused_columns catalogue)))
  /\ ~ In (label untyped_record) (labels catalogue_out).
Proof.
  assert (H1 : c_type ∈ columns catalogue)
    by (apply (bool_decide_unpack _); vm_compute; exact I).
  assert (H2 : NoDup (labels catalogue))
    by (apply (bool_decide_unpack _); vm_compute; exact I).
  assert (H3 : In untyped_record (rows catalogue))
    by (apply nth_In; vm_compute; lia).
  assert (H4 : missing_or_sentinel (cell untyped_record c_type))
    by (left; vm_compute; reflexivity).
  destruct (missing_type_removed ref_lib catalogue untyped_record H1 H2 H3 H4)
    as (Hnan & _ & Hgone & Hout).
  split; [exact H1|]. split; [exact H2|]. split; [exact H3|]. split; [exact H4|].
  split; [apply Hnan; vm_compute; reflexivity|]. split; [exact Hgone|].
  apply (Hout catalogue_out). vm_compute. reflexivity.
Defined.

(** C8: the retained record of a one-line table. *)
Lemma category_filter_rewrites_type_example :
  c_type ∈ columns capital_movie
  /\ In retained_record (rows (keep_only_movies ref_lib capital_movie))
  /\ cell retained_record c_type = VStr (py "movie")
  /\ exists r, In r (rows capital_movie)
       /\ str_lower ref_lib (str_strip (py_str ref_lib (cell r c_type))) = py "movie"
       /\ label retained_record = label r
       /\ cells retained_record = <[c_type := VStr (py "movie")]> (cells r)
       /\ forall c, c <> c_type -> cell retained_record c = cell r c.
Proof.
  assert (H1 : c_type ∈ columns capital_movie)
    by (apply (bool_decide_unpack _); vm_compute; exact I).
  assert (H2 : In retained_record (rows (keep_only_movies ref_lib capital_movie)))
    by (apply nth_In; vm_compute; lia).
  split; [exact H1|]. split; [exact H2|].
  exact (category_filter_rewrites_type ref_lib capital_movie retained_record H1 H2).
Defined.

(** C8, as stated, fails: the stored value [" Movie"] of the retained
    record is replaced by ["movie"]. *)
Lemma category_filter_changes_stored_type :
  to_grid capital_movie = [ (0%nat, [str " Movie"; str "Her"]) ]
  /\ to_grid (keep_only_movies ref_lib capital_movie) = [ (0%nat, [str "movie"; str "Her"]) ].
Proof. split; vm_compute; reflexivity. Qed.

(** C4: the example of the specification. *)
Lemma release_year_coerced_example :
  c_release_year ∈ columns years
  /\ clean_release_year ref_lib years = OK years_out
  /\ to_grid years_out
     = [ (0%nat, [VInt 2001]); (1%nat, [VInt 2000]); (2%nat, [VInt 1999]); (3%nat, [VInt 2000]) ]
  /\ exists fill,
       ((present (year_numbers ref_lib years) = [] /\ fill = 2000%Z)
        \/ (present (year_numbers ref_lib years) <> []
            /\ is_finite (median (present (year_numbers ref_lib years))) = true
            /\ fill = float_trunc (median (present (year_numbers ref_lib years)))))
       /\ Forall (fun r' => exists z, cell r' c_release_year = VInt z) (rows years_out)
       /\ (exactly_representable fill ->
           (forall z, In (NumInt z) (year_numbers ref_lib years) -> exactly_representable z) ->
           Forall2 (fun r r' =>
                      r' = set_cell r c_release_year
                             (VInt (year_of fill (to_numeric ref_lib (cell r c_release_year)))))
                   (rows years) (rows years_out)).
Proof.
  assert (H1 : c_release_year ∈ columns years)
    by (apply (bool_decide_unpack _); vm_compute; exact I).
  assert (H2 : clean_release_year ref_lib years = OK years_out) by (vm_compute; reflexivity).
  split; [exact H1|]. split; [exact H2|]. split; [vm_compute; reflexivity|].
  exact (release_year_coerced ref_lib years years_out H1 H2).
Defined.

(** C4, as stated, fails: ["12.5"] is no integer, yet it is converted (to
    the float 12.5) and kept, truncated to 12, instead of being replaced by
    2000, the integer part of the median of 2001 and 1999. *)
Lemma fractional_year_truncated :
  to_numeric ref_lib (str "12.5") = NumFloat (float_div (float_of_Z 25) (float_of_Z 2))
  /\ grid_of (clean_release_year ref_lib fractional_years)
     = OK [ (0%nat, [VInt 2001]); (1%nat, [VInt 12]); (2%nat, [VInt 1999]) ].
Proof. split; vm_compute; reflexivity. Qed.

(** Without any of the key columns the deduplication leaves an empty frame
    as it is and raises on every other frame. *)
Lemma remove_duplicates_no_key_columns (df : DataFrame) :
  existing df dedup_columns = [] ->
  remove_duplicates df = if df_empty df then OK df else Raise ValueError.
Proof. intros Hs. unfold remove_duplicates, drop_duplicates. now rewrite Hs. Qed.

(** C2, on the code: without key columns the deduplication does not leave
    the table as it is; the call raises and the run ends without output. *)
Lemma dedup_without_key_columns_raises :
  existing no_key_columns dedup_columns = []
  /\ remove_duplicates (normalize_text ref_lib no_key_columns) = Raise ValueError
  /\ main ref_lib no_key_columns = Raise ValueError.
Proof. repeat split; vm_compute; reflexivity. Qed.

(** C7 on two tables: both sort columns, and [release_year] alone. *)
Lemma sort_stage_order_example :
  (sort_stage ref_lib shelf = OK shelf_sorted
   /\ labels shelf_sorted = [3; 0; 2; 1]%nat
   /\ Permutation (rows shelf) (rows shelf_sorted)
   /\ sorted_by [c_release_year; c_title] (rows shelf_sorted)
   /\ stable [c_release_year; c_title] (rows shelf) (rows shelf_sorted))
  /\ (sort_stage ref_lib years_only = OK years_only_sorted
      /\ labels years_only_sorted = [1; 2; 0]%nat
      /\ Permutation (rows years_only) (rows years_only_sorted)
      /\ sorted_by [c_release_year] (rows years_only_sorted)).
Proof.
  assert (H1 : sort_stage ref_lib shelf = OK shelf_sorted) by (vm_compute; reflexivity).
  assert (H2 : sort_stage ref_lib years_only = OK years_only_sorted) by (vm_compute; reflexivity).
  destruct (sort_stage_order ref_lib shelf shelf_sorted H1) as (_ & _ & Hboth & _).
  destruct (sort_stage_order ref_lib years_only years_only_sorted H2) as (_ & _ & _ & Hone).
  split.
  - split; [exact H1|]. split; [vm_compute; reflexivity|].
    apply Hboth; apply (bool_decide_unpack _); vm_compute; exact I.
  - split; [exact H2|]. split; [vm_compute; reflexivity|].
    apply (Hone c_release_year); [vm_compute; reflexivity|].
    apply is_argsort_check.
    + apply (bool_decide_unpack _). vm_compute. exact I.
    + vm_compute. reflexivity.
    + apply (bool_decide_unpack _). vm_compute. exact I.
    + apply (bool_decide_unpack _). vm_compute. exact I.
Defined.

(** C7, as stated, fails: eighteen records with the same title and no
    [release_year] column leave the sort in another order. *)
Lemma single_key_sort_not_stable :
  existing same_title sort_columns = [c_title]
  /\ map (row_key [c_title]) (rows same_title) = repeat [str "A"] 18
  /\ labels same_title = seq 0 18
  /\ sort_stage ref_lib same_title = OK same_title_sorted
  /\ labels same_title_sorted
     = [0; 15; 14; 13; 12; 11; 10; 9; 8; 7; 6; 5; 4; 3; 2; 1; 16; 17]%nat
  /\ ~ stable [c_title] (rows same_title) (rows same_title_sorted)
  /\ labels <$> main ref_lib same_title
     = OK [0; 15; 14; 13; 12; 11; 10; 9; 8; 7; 6; 5; 4; 3; 2; 1; 16; 17]%nat.
Proof.
  split; [vm_compute; reflexivity|]. split; [vm_compute; reflexivity|].
  split; [vm_compute; reflexivity|]. split; [vm_compute; reflexivity|].
  split; [vm_compute; reflexivity|]. split; [|vm_compute; reflexivity].
  intros H. specialize (H [str "A"]). apply (f_equal (map label)) in H.
  vm_compute in H. discriminate H.
Qed.

(** * Further properties of the script *)

Lemma filter_Forall {A} (P : A -> Prop) (f : A -> bool) (l : list A) :
  Forall P l -> Forall P (List.filter f l).
Proof.
  induction 1 as [|x l Hx _ IH]; simpl; [constructor|].
  destruct (f x); auto.
Qed.

Lemma filter_sublist {A} (f : A -> bool) (l : list A) : sublist (List.filter f l) l.
Proof.
  induction l as [|x l IH]; simpl; [constructor|].
  destruct (f x); now constructor.
Qed.

Lemma replace_char_fixed a b s : Forall (fun c => c <> a) s -> replace_char a b s = s.
Proof.
  induction 1 as [|c s Hc _ IH]; simpl; [reflexivity|].
  destruct (N.eqb_spec c a); [contradiction|]. now rewrite IH.
Qed.

Lemma str_strip_idempotent s : str_strip (str_strip s) = str_strip s.
Proof. apply str_strip_fixed; [apply str_strip_head_ok | apply str_strip_last_ok]. Qed.

Lemma lookup_delete_all (names : list pystr) (m : gmap pystr value) c :
  foldr delete m names !! c = if bool_decide (c ∈ names) then None else m !! c.
Proof.
  induction names as [|n names IH]; simpl; [reflexivity|].
  destruct (decide (n = c)) as [->|Hne].
  - rewrite lookup_delete_eq. rewrite bool_decide_eq_true_2; [reflexivity | left].
  - rewrite lookup_delete_ne by assumption. rewrite IH.
    destruct (bool_decide_reflect (c ∈ names)) as [Hin|Hnin].
    + rewrite bool_decide_eq_true_2; [reflexivity | now right].
    + rewrite bool_decide_eq_false_2; [reflexivity|].
      intros Hc. apply elem_of_cons in Hc as [->|Hc]; congruence.
Qed.

(** ** Stage 2: the projection *)

(** X1.  Dropping the unused columns never fails, whichever of them the
    table has: the columns left are those of the table that are not
    [description], [rating] or [date_added], in their order; every record
    keeps its label and its other fields, and loses the fields of the
    dropped columns. *)
Theorem drop_unused_columns_projection (df : DataFrame) :
  (forall c, c ∈ columns (drop_unused_columns df) <-> c ∈ columns df /\ c ∉ drop_cols)
  /\ sublist (columns (drop_unused_columns df)) (columns df)
  /\ Forall2 (fun r r' =>
                label r' = label r
                /\ forall c, cells r' !! c
                             = if bool_decide (c ∈ drop_cols /\ c ∈ columns df) then None
                               else cells r !! c)
             (rows df) (rows (drop_unused_columns df)).
Proof.
  unfold drop_unused_columns, drop_columns. cbn [columns rows]. split; [|split].
  - intros c. rewrite list_elem_of_In, filter_In, <- list_elem_of_In.
    rewrite negb_true_iff, bool_decide_eq_false, existing_elem.
    tauto.
  - apply filter_sublist.
  - induction (rows df) as [|r l IH]; cbn [map]; constructor; [|exact IH].
    split; [reflexivity|]. intros c. cbn [cells]. rewrite lookup_delete_all.
    destruct (bool_decide_reflect (c ∈ existing df drop_cols)) as [Hin|Hnin];
      rewrite existing_elem in *.
    + now rewrite bool_decide_eq_true_2.
    + now rewrite bool_decide_eq_false_2.
Qed.

(** ** The basic text clean, on any value *)

Section TextCleanSafe.

Variable L : PyLib.

Lemma clean_text_basic_chars (text : value) :
  Forall (fun c => c <> COMMA /\ c <> CR /\ c <> LF /\ (is_space c = true -> c = SPACE))
         (clean_text_basic L text).
Proof.
  unfold clean_text_basic. destruct (isna text); [constructor|].
  apply filter_Forall. fold (clean_core (py_str L text)).
  pose proof (replace_char_absent COMMA SEMICOLON
                (sub_runs is_space (sub_runs is_crlf (str_strip (py_str L text))))
                ltac:(discriminate)) as Hcomma.
  pose proof (clean_core_no_crlf (py_str L text)) as Hcrlf.
  assert (Hspace : Forall (fun c => is_space c = true -> c = SPACE) (clean_core (py_str L text))).
  { apply replace_char_Forall; [discriminate|]. apply sub_runs_from_class. }
  fold (clean_core (py_str L text)) in Hcomma.
  rewrite Forall_forall in Hcomma, Hcrlf, Hspace. apply Forall_forall. intros c Hc.
  specialize (Hcomma c Hc). specialize (Hcrlf c Hc). specialize (Hspace c Hc).
  cbv beta in *. apply not_crlf_iff in Hcrlf. tauto.
Qed.

(** X2.  Whatever value it is given (a string, a number, a missing
    value), the basic text clean returns text without comma, carriage
    return or newline, in which the only whitespace character is the plain
    space; a missing value gives the empty string. *)
Theorem clean_text_basic_csv_safe (text : value) :
  Forall (fun c => c <> COMMA /\ c <> CR /\ c <> LF /\ (is_space c = true -> c = SPACE))
         (clean_text_basic L text)
  /\ (isna text = true -> clean_text_basic L text = []).
Proof.
  split; [apply clean_text_basic_chars|].
  unfold clean_text_basic. now intros ->.
Qed.

End TextCleanSafe.

(** ** Stage 4: trimmed strings and sentinels *)

Lemma standardize_str v s :
  standardize v = VStr s -> str_strip s = s /\ s ∉ sentinels.
Proof.
  destruct v as [s0| | | |]; try discriminate.
  unfold standardize. cbn [strip_if_str replace_sentinel].
  destruct (bool_decide_reflect (str_strip s0 ∈ sentinels)) as [|Hn]; [discriminate|].
  intros [= <-]. split; [apply str_strip_idempotent | exact Hn].
Qed.

Lemma cells_standardize_strings df r' :
  In r' (rows (standardize_strings df)) ->
  exists r, In r (rows df) /\ label r' = label r /\ cells r' = standardize <$> cells r.
Proof.
  unfold standardize_strings, applymap. cbn [rows]. rewrite map_map. cbn [label cells].
  intros H. apply in_map_iff in H as (r & <- & Hr). exists r.
  split; [assumption|]. split; [reflexivity|]. cbn [cells].
  now rewrite <- map_fmap_compose.
Qed.

Lemma retyped_refl v : retyped v v.
Proof. destruct v; cbn; auto. Qed.

(** X4.  After the strings are standardized, every string of the table is
    trimmed and none is one of the sentinel literals: a string that trims
    to a sentinel has become [pd.NA], any other string is stored trimmed,
    and a value that is not a string holds what it held (an integer possibly
    stored as a float, a missing value still missing). *)
Theorem standardized_cells (df : DataFrame) (r' : Row) :
  In r' (rows (standardize_strings df)) ->
  (forall c s, cells r' !! c = Some (VStr s) -> str_strip s = s /\ s ∉ sentinels)
  /\ exists r, In r (rows df) /\ label r' = label r
       /\ forall c,
            match cells r !! c with
            | Some (VStr s) =>
                cells r' !! c
                = Some (if bool_decide (str_strip s ∈ sentinels) then VNA
                        else VStr (str_strip s))
            | Some v => exists v', cells r' !! c = Some v' /\ retyped v v'
            | None => cells r' !! c = None
            end.
Proof.
  intros Hr'. apply cells_standardize_strings in Hr' as (r & Hr & Hl & Hc). split.
  - intros c s Hs. rewrite Hc, lookup_fmap in Hs.
    destruct (cells r !! c) as [v|]; [|discriminate]. injection Hs as Hs.
    eapply standardize_str, Hs.
  - exists r. split; [assumption|]. split; [assumption|]. intros c.
    rewrite Hc, lookup_fmap.
    destruct (cells r !! c) as [v|]; [|reflexivity].
    destruct v; first [reflexivity | eexists; split; [reflexivity | apply retyped_refl]].
Qed.

(** ** Stage 10: the final pass applied twice *)

Lemma escape_idempotent v : escape (escape v) = escape v.
Proof.
  destruct v as [s| | | |]; try reflexivity.
  unfold escape. cbn [escape_cell strip_if_str]. f_equal.
  set (t := str_strip (replace_char COMMA SPACE (sub_runs is_crlf s))).
  pose proof (escaped_no_separator s) as Hsep. fold t in Hsep.
  unfold no_separator in Hsep.
  assert (Hcrlf : Forall (fun c => is_crlf c = false) t).
  { eapply Forall_impl; [exact Hsep|]. intros c Hc. cbv beta in Hc.
    apply not_crlf_iff. tauto. }
  assert (Hcomma : Forall (fun c => c <> COMMA) t).
  { eapply Forall_impl; [exact Hsep|]. intros c Hc. cbv beta in Hc. tauto. }
  unfold sub_runs. rewrite (sub_runs_from_none _ _ _ Hcrlf).
  rewrite (replace_char_fixed _ _ _ Hcomma). apply str_strip_idempotent.
Qed.

(** X10.  The final pass (newline and comma replacement, then trimming)
    is idempotent: applied to its own result it changes nothing, so a table
    that went through it is stable under it. *)
Theorem reescape_idempotent (df : DataFrame) : reescape (reescape df) = reescape df.
Proof.
  unfold reescape, applymap. cbn [columns rows]. f_equal.
  rewrite !map_map. apply map_ext. intros r. cbn [label cells]. f_equal.
  rewrite <- !map_fmap_compose. apply map_fmap_ext. intros c v _.
  apply (escape_idempotent v).
Qed.

(** ** Stage 5: the default fill *)

Lemma fill_plan_elem df c :
  c ∈ map fst (fill_plan df) -> c ∈ map fst fill_defaults /\ c ∈ columns df.
Proof.
  intros H. split; [eapply fill_plan_names, H|].
  unfold fill_plan in H. rewrite map_map in H.
  apply list_elem_of_In, in_map_iff in H as (cv & <- & Hcv).
  apply filter_In in Hcv as [_ Hcv]. now apply has_column_true.
Qed.

Lemma fill_plan_unknown df c :
  c ∈ map fst fill_defaults -> c ∈ columns df ->
  In (c, fillna (VStr (py "Unknown"))) (fill_plan df).
Proof.
  intros Hc Hcol. unfold fill_plan. apply in_map_iff. exists (c, py "Unknown").
  split; [reflexivity|]. apply filter_In. split; [|now apply has_column_true].
  unfold fill_defaults in *. cbn [map fst] in Hc.
  repeat (apply elem_of_cons in Hc as [->|Hc]; [cbn [In]; auto 10|]).
  now apply elem_of_nil in Hc.
Qed.

(** X5.  The default fill rewrites exactly the missing values of the
    columns [director], [cast], [country], [listed_in] and [duration] that
    the table has, to the literal ["Unknown"]; afterwards none of these
    columns holds a missing value, and every other value, label and row is
    as before. *)
Theorem fill_missing_defaults (df : DataFrame) (r' : Row) :
  In r' (rows (fill_missing df)) ->
  (forall c, c ∈ map fst fill_defaults -> c ∈ columns df -> isna (cell r' c) = false)
  /\ exists r, In r (rows df) /\ label r' = label r
       /\ forall c, cell r' c
            = if bool_decide (c ∈ map fst fill_defaults /\ c ∈ columns df) && isna (cell r c)
              then VStr (py "Unknown") else cell r c.
Proof.
  rewrite fill_missing_rows. cbn [rows]. intros Hr'.
  apply in_map_iff in Hr' as (r & <- & Hr).
  assert (Hcell : forall c, cell (apply_all (fill_plan df) r) c
            = if bool_decide (c ∈ map fst fill_defaults /\ c ∈ columns df) && isna (cell r c)
              then VStr (py "Unknown") else cell r c).
  { intros c. destruct (bool_decide_reflect (c ∈ map fst fill_defaults /\ c ∈ columns df))
      as [[Hc Hcol]|Hn]; cbn [andb].
    - rewrite (apply_all_at _ r c (fillna (VStr (py "Unknown")))
                 (fill_plan_NoDup df) (fill_plan_unknown df c Hc Hcol)).
      reflexivity.
    - apply apply_all_other. intros Hin. apply Hn. now apply fill_plan_elem. }
  split.
  - intros c Hc Hcol. rewrite Hcell. rewrite bool_decide_eq_true_2 by tauto. cbn [andb].
    destruct (isna (cell r c)) eqn:E; [reflexivity | exact E].
  - exists r. split; [assumption|]. split; [apply apply_all_label | exact Hcell].
Qed.

(** ** Stage 7: infinite years *)

Section NumericErrors.

Variable L : PyLib.

Lemma clean_release_year_ints df df' :
  c_release_year ∈ columns df -> clean_release_year L df = OK df' ->
  forall r', In r' (rows df') -> exists z, cell r' c_release_year = VInt z.
Proof.
  intros Hcol H r' Hr'. apply has_column_true in Hcol.
  unfold clean_release_year in H. rewrite Hcol in H.
  cbv zeta in H. destruct (uint64_conflict _); [discriminate|].
  apply bind_OK_inv in H as (fill & _ & H).
  apply bind_OK_inv in H as (rows' & Hrows & H). injection H as <-.
  apply traverse_OK_inv in Hrows. cbn [rows] in Hr'.
  destruct (Forall2_In_r _ _ _ _ Hrows Hr') as (r & _ & Hr).
  apply bind_OK_inv in Hr as (v & Hv & Hr). injection Hr as <-.
  rewrite cell_set_cell_eq. eapply coerce_year_int, Hv.
Qed.

(** X7.  An infinite value in [release_year] makes the numeric step raise
    (in [int(median)] or in [astype(int)]): the step returns no table. *)
Theorem infinite_year_raises (df : DataFrame) (r : Row) (s : bool) :
  c_release_year ∈ columns df -> In r (rows df) ->
  to_numeric L (cell r c_release_year) = NumFloat (S754_infinity s) ->
  exists e, clean_release_year L df = Raise e.
Proof.
  intros Hcol Hr Hinf. destruct (clean_release_year L df) as [df'|e] eqn:E; [|eauto].
  exfalso. apply has_column_true in Hcol.
  unfold clean_release_year in E. rewrite Hcol in E.
  cbv zeta in E. destruct (uint64_conflict _); [discriminate|].
  apply bind_OK_inv in E as (fill & _ & E).
  apply bind_OK_inv in E as (rows' & Hrows & _).
  apply traverse_OK_inv in Hrows.
  destruct (Forall2_In_l _ _ _ _ Hrows Hr) as (r' & _ & Hrr').
  rewrite Hinf in Hrr'. discriminate Hrr'.
Qed.

End NumericErrors.

(** ** Stage 9: first occurrences *)

Lemma keep_first_sublist key seen l : sublist (keep_first key seen l) l.
Proof.
  revert seen. induction l as [|x l IH]; intros seen; simpl; [constructor|].
  destruct (bool_decide _); constructor; apply IH.
Qed.

Lemma keep_first_keys key seen l :
  NoDup (map key (keep_first key seen l))
  /\ forall r, In r (keep_first key seen l) -> key r ∉ seen.
Proof.
  revert seen. induction l as [|x l IH]; intros seen; simpl.
  - split; [constructor | tauto].
  - destruct (bool_decide_reflect (key x ∈ seen)) as [Hin|Hnin]; [apply IH|].
    destruct (IH (key x :: seen)) as [Hnd Hfresh]. split.
    + cbn [map]. apply NoDup_cons. split; [|exact Hnd].
      intros Hk. apply list_elem_of_In, in_map_iff in Hk as (r & Hkr & Hr).
      apply (Hfresh r Hr). rewrite Hkr. left.
    + intros r [<-|Hr]; [exact Hnin|].
      intros Hk. apply (Hfresh r Hr). now right.
Qed.

Lemma keep_first_covers key seen l r :
  In r l -> key r ∈ seen \/ In (key r) (map key (keep_first key seen l)).
Proof.
  revert seen. induction l as [|x l IH]; intros seen; simpl; [tauto|].
  intros [->|Hr].
  - destruct (bool_decide_reflect (key r ∈ seen)); [now left|]. right. now left.
  - destruct (bool_decide_reflect (key x ∈ seen)); [now apply IH|].
    destruct (IH (key x :: seen) Hr) as [Hk|Hk].
    + apply elem_of_cons in Hk as [Hk|Hk]; [|now left].
      right. cbn [map In]. left. congruence.
    + right. now right.
Qed.

Lemma keep_first_first key seen l1 r l2 :
  key r ∉ seen -> ~ In (key r) (map key l1) -> In r (keep_first key seen (l1 ++ r :: l2)).
Proof.
  revert seen. induction l1 as [|x l1 IH]; intros seen Hseen Hl1; simpl.
  - rewrite bool_decide_eq_false_2 by assumption. now left.
  - simpl in Hl1. destruct (bool_decide_reflect (key x ∈ seen)).
    + apply IH; tauto.
    + right. apply IH; [|tauto].
      intros Hk. apply elem_of_cons in Hk as [Hk|Hk]; [|contradiction].
      apply Hl1. left. congruence.
Qed.

Lemma keep_first_fixed key seen l :
  NoDup (map key l) -> (forall r, In r l -> key r ∉ seen) -> keep_first key seen l = l.
Proof.
  revert seen. induction l as [|x l IH]; intros seen Hnd Hfresh; simpl; [reflexivity|].
  cbn [map] in Hnd. apply NoDup_cons in Hnd as [Hx Hnd].
  rewrite bool_decide_eq_false_2 by (apply Hfresh; now left).
  f_equal. apply IH; [exact Hnd|].
  intros r Hr Hk. apply elem_of_cons in Hk as [Hk|Hk].
  - apply Hx. rewrite <- Hk. apply list_elem_of_In, in_map, Hr.
  - apply (Hfresh r); [now right | exact Hk].
Qed.

Lemma existing_nonempty_columns df names : existing df names <> [] -> columns df <> [].
Proof.
  intros H Hc. apply H. clear H. unfold existing.
  induction names as [|n names IH]; [reflexivity|]. cbn [List.filter].
  unfold has_column at 1. rewrite Hc.
  rewrite bool_decide_eq_false_2 by apply not_elem_of_nil. exact IH.
Qed.

Lemma drop_duplicates_nonempty subset df :
  df_empty df = false -> subset <> [] ->
  drop_duplicates subset df
  = OK (mkDF (columns df) (keep_first (row_key subset) [] (rows df))).
Proof.
  intros He Hs. unfold drop_duplicates. rewrite He. destruct subset; [congruence | reflexivity].
Qed.

(** X6.  When at least one of [title], [director], [release_year]
    exists, the deduplication returns: it keeps the rows in their order,
    leaves exactly one record for every key of the table, namely the first
    one that carries it, and applied again it changes nothing. *)
Theorem remove_duplicates_first_occurrences (df : DataFrame) :
  existing df dedup_columns <> [] ->
  exists df',
    remove_duplicates df = OK df'
    /\ columns df' = columns df
    /\ sublist (rows df') (rows df)
    /\ NoDup (map (row_key (existing df dedup_columns)) (rows df'))
    /\ (forall r, In r (rows df) ->
          In (row_key (existing df dedup_columns) r)
             (map (row_key (existing df dedup_columns)) (rows df')))
    /\ (forall l1 r l2, rows df = l1 ++ r :: l2 ->
          ~ In (row_key (existing df dedup_columns) r)
               (map (row_key (existing df dedup_columns)) l1) ->
          In r (rows df'))
    /\ remove_duplicates df' = OK df'.
Proof.
  intros Hkey. pose proof (existing_nonempty_columns _ _ Hkey) as Hcols.
  unfold remove_duplicates at 1.
  destruct (df_empty df) eqn:Hempty; [unfold drop_duplicates; rewrite Hempty|].
  - assert (Hrows : rows df = []).
    { unfold df_empty in Hempty. destruct (columns df); [congruence|].
      now destruct (rows df). }
    exists df. rewrite Hrows. repeat split; try constructor.
    + intros r [].
    + intros l1 r l2 H. now destruct l1.
    + unfold remove_duplicates, drop_duplicates. now rewrite Hempty.
  - fold (drop_duplicates (existing df dedup_columns) df).
    rewrite (drop_duplicates_nonempty _ _ Hempty Hkey).
    set (key := row_key (existing df dedup_columns)).
    exists (mkDF (columns df) (keep_first key [] (rows df))). cbn [columns rows].
    destruct (keep_first_keys key [] (rows df)) as [Hnd Hfresh].
    split; [reflexivity|]. split; [reflexivity|].
    split; [apply keep_first_sublist|]. split; [exact Hnd|]. split; [|split].
    + intros r Hr. destruct (keep_first_covers key [] (rows df) r Hr) as [Hk|Hk];
        [now apply elem_of_nil in Hk | exact Hk].
    + intros l1 r l2 -> Hl1. apply keep_first_first; [apply not_elem_of_nil | exact Hl1].
    + unfold remove_duplicates.
      change (existing (mkDF (columns df) (keep_first key [] (rows df))) dedup_columns)
        with (existing df dedup_columns).
      destruct (df_empty (mkDF (columns df) (keep_first key [] (rows df)))) eqn:He.
      * unfold drop_duplicates. now rewrite He.
      * rewrite (drop_duplicates_nonempty _ _ He Hkey). cbn [columns rows]. fold key.
        rewrite (keep_first_fixed key [] _ Hnd); [reflexivity|].
        intros r _. apply not_elem_of_nil.
Qed.

(** ** The genre clean *)

Lemma forallb_is_ascii s : Forall (fun c => is_ascii c = true) s -> forallb is_ascii s = true.
Proof. induction 1 as [|c s Hc _ IH]; simpl; [reflexivity|]. now rewrite Hc. Qed.

Lemma case_char_cases (b : bool) (c : char) :
  (if b then lower_ascii c else upper_ascii c) = c
  \/ (97 <= (if b then lower_ascii c else upper_ascii c)
      /\ (if b then lower_ascii c else upper_ascii c) <= 122 /\ 65 <= c /\ c <= 90)
  \/ (65 <= (if b then lower_ascii c else upper_ascii c)
      /\ (if b then lower_ascii c else upper_ascii c) <= 90 /\ 97 <= c /\ c <= 122).
Proof.
  destruct b; unfold lower_ascii, upper_ascii, is_upper_ascii, is_lower_ascii.
  - destruct (N.leb_spec 65 c), (N.leb_spec c 90); cbn [andb]; auto. right. left. lia.
  - destruct (N.leb_spec 97 c), (N.leb_spec c 122); cbn [andb]; auto. right. right. lia.
Qed.

Lemma case_char_ascii (b : bool) (c : char) :
  is_ascii c = true -> is_ascii (if b then lower_ascii c else upper_ascii c) = true.
Proof.
  unfold is_ascii. rewrite !N.ltb_lt. intros Hc.
  pose proof (case_char_cases b c) as H. destruct b; unfold char in *; lia.
Qed.

Lemma case_char_eqb (b : bool) (c k : char) :
  (k < 65 \/ (90 < k /\ k < 97) \/ 122 < k) ->
  ((if b then lower_ascii c else upper_ascii c) =? k) = (c =? k).
Proof.
  intros Hk. pose proof (case_char_cases b c) as H.
  destruct b; unfold char in *;
    (destruct (N.eqb_spec c k) as [E|E]; [apply N.eqb_eq | apply N.eqb_neq]; lia).
Qed.

Lemma title_ascii_from_Forall (P : char -> Prop) b s :
  (forall (b' : bool) c, P c -> P (if b' then lower_ascii c else upper_ascii c)) ->
  Forall P s -> Forall P (title_ascii_from b s).
Proof.
  intros HP H. revert b. induction H as [|c s Hc _ IH]; intros b; simpl; constructor; auto.
Qed.

Lemma title_ascii_from_spaced b s :
  semicolons_spaced (title_ascii_from b s) = semicolons_spaced s.
Proof.
  assert (Hsemi : forall (b' : bool) c,
             ((if b' then lower_ascii c else upper_ascii c) =? SEMICOLON) = (c =? SEMICOLON))
    by (intros; apply case_char_eqb; unfold SEMICOLON; lia).
  assert (Hsp : forall (b' : bool) c,
             ((if b' then lower_ascii c else upper_ascii c) =? SPACE) = (c =? SPACE))
    by (intros; apply case_char_eqb; unfold SPACE; lia).
  revert b. induction s as [|c s IH]; intros b; [reflexivity|].
  cbn [title_ascii_from semicolons_spaced]. rewrite IH.
  destruct s as [|d s].
  - destruct b; [rewrite (Hsemi true) | rewrite (Hsemi false)]; reflexivity.
  - cbn [title_ascii_from].
    destruct (is_upper_ascii c || is_lower_ascii c);
      [rewrite (Hsp true) | rewrite (Hsp false)];
      (destruct b; [rewrite (Hsemi true) | rewrite (Hsemi false)]; reflexivity).
Qed.

Lemma sub_semicolons_from_Forall (P : char -> Prop) pending after s :
  P SEMICOLON -> P SPACE -> Forall P pending -> Forall P s ->
  Forall P (sub_semicolons_from pending after s).
Proof.
  intros Hsemi Hsp Hp Hs. revert pending after Hp.
  induction Hs as [|c s Hc _ IH]; intros pending after Hp; simpl; [exact Hp|].
  destruct (c =? SEMICOLON).
  - constructor; [exact Hsemi|]. constructor; [exact Hsp|]. apply IH. constructor.
  - destruct (is_space c).
    + destruct after; apply IH; [constructor|].
      apply Forall_app. split; [exact Hp | now constructor].
    + apply Forall_app. split; [exact Hp|]. constructor; [exact Hc|]. apply IH. constructor.
Qed.

Lemma semicolons_spaced_app_spaces ws x s :
  Forall (fun c => is_space c = true) ws ->
  semicolons_spaced (ws ++ x :: s) = semicolons_spaced (x :: s).
Proof.
  induction 1 as [|c ws Hc _ IH]; [reflexivity|].
  cbn [app semicolons_spaced]. rewrite IH.
  destruct (N.eqb_spec c SEMICOLON) as [->|]; [discriminate Hc | reflexivity].
Qed.

Lemma semicolons_spaced_spaces ws :
  Forall (fun c => is_space c = true) ws -> semicolons_spaced ws = true.
Proof.
  induction 1 as [|c ws Hc _ IH]; [reflexivity|].
  cbn [semicolons_spaced]. rewrite IH.
  destruct (N.eqb_spec c SEMICOLON) as [->|]; [discriminate Hc | reflexivity].
Qed.

Lemma sub_semicolons_from_spaced pending after s :
  Forall (fun c => is_space c = true) pending ->
  semicolons_spaced (sub_semicolons_from pending after s) = true.
Proof.
  revert pending after. induction s as [|c s IH]; intros pending after Hp; simpl.
  - now apply semicolons_spaced_spaces.
  - destruct (N.eqb_spec c SEMICOLON) as [->|Hne].
    + cbn [semicolons_spaced]. rewrite IH by constructor. reflexivity.
    + destruct (is_space c) eqn:Hc.
      * destruct after; apply IH; [constructor|].
        apply Forall_app. split; [exact Hp | now constructor].
      * rewrite (semicolons_spaced_app_spaces pending c _ Hp).
        cbn [semicolons_spaced]. rewrite IH by constructor.
        apply N.eqb_neq in Hne. now rewrite Hne.
Qed.

Section GenreClean.

Variable L : PyLib.

(** X3.  On a genre list of 7-bit characters the genre clean returns the
    lower-cased, trimmed text with its commas turned into semicolons, every
    semicolon rewritten with the whitespace around it to ["; "], and the
    whole title-cased: the result is 7-bit text without comma in which each
    semicolon is directly followed by a space. *)
Theorem clean_genres_separators (s : pystr) :
  Forall (fun c => is_ascii c = true) s ->
  clean_genres L (VStr s)
  = title_ascii_from false
      (sub_semicolons (replace_char COMMA SEMICOLON (str_strip (map lower_ascii s))))
  /\ Forall (fun c => is_ascii c = true /\ c <> COMMA) (clean_genres L (VStr s))
  /\ semicolons_spaced (clean_genres L (VStr s)) = true.
Proof.
  intros Hs.
  assert (Hlow : Forall (fun c => is_ascii c = true) (map lower_ascii s)).
  { apply Forall_map. eapply Forall_impl; [exact Hs|]. intros c Hc.
    apply (case_char_ascii true c Hc). }
  set (t := replace_char COMMA SEMICOLON (str_strip (map lower_ascii s))).
  assert (Ht : Forall (fun c => is_ascii c = true /\ c <> COMMA) t).
  { pose proof (replace_char_absent COMMA SEMICOLON (str_strip (map lower_ascii s))
                  ltac:(discriminate)) as H1.
    assert (H2 : Forall (fun c => is_ascii c = true) t)
      by (apply replace_char_Forall; [reflexivity | now apply str_strip_Forall]).
    fold t in H1. rewrite Forall_forall in H1, H2. apply Forall_forall. intros c Hc.
    split; [now apply H2 | now apply H1]. }
  assert (Hu : Forall (fun c => is_ascii c = true /\ c <> COMMA) (sub_semicolons t)).
  { apply sub_semicolons_from_Forall; [split; [reflexivity | discriminate] ..| constructor | exact Ht]. }
  assert (Heq : clean_genres L (VStr s) = title_ascii_from false (sub_semicolons t)).
  { unfold clean_genres. cbn [isna py_str]. unfold str_lower.
    rewrite (forallb_is_ascii s Hs). fold t. unfold str_title.
    rewrite forallb_is_ascii; [reflexivity|].
    eapply Forall_impl; [exact Hu|]. intros c Hc. apply Hc. }
  split; [exact Heq|]. rewrite Heq. split.
  - apply title_ascii_from_Forall; [|exact Hu].
    intros b c [Ha Hc]. split; [now apply case_char_ascii|].
    apply N.eqb_neq. apply N.eqb_neq in Hc. rewrite <- Hc.
    apply case_char_eqb. unfold COMMA. lia.
  - rewrite title_ascii_from_spaced. apply sub_semicolons_from_spaced. constructor.
Qed.

End GenreClean.

(** X3 on the example ["Action, drama,  Comedy"]. *)
Lemma clean_genres_separators_example :
  Forall (fun c => is_ascii c = true) genres_raw
  /\ clean_genres ref_lib (VStr genres_raw) = py "Action; Drama; Comedy"
  /\ Forall (fun c => is_ascii c = true /\ c <> COMMA) (clean_genres ref_lib (VStr genres_raw))
  /\ semicolons_spaced (clean_genres ref_lib (VStr genres_raw)) = true.
Proof.
  assert (H : Forall (fun c => is_ascii c = true) genres_raw).
  { apply Forall_forall. intros c Hc. vm_compute in Hc.
    repeat (apply elem_of_cons in Hc as [->|Hc]; [reflexivity|]).
    apply elem_of_nil in Hc. destruct Hc. }
  split; [exact H|]. split; [vm_compute; reflexivity|].
  exact (proj2 (clean_genres_separators ref_lib genres_raw H)).
Defined.

(** ** The whole pipeline *)

Ltac not_listed := apply (bool_decide_unpack (_ ∉ _)); vm_compute; exact I.
Ltac listed := apply (bool_decide_unpack (_ ∈ _)); vm_compute; exact I.

Lemma isna_fillna_str s v : isna (fillna (VStr s) v) = false.
Proof. unfold fillna. destruct (isna v) eqn:E; [reflexivity | exact E]. Qed.

Section WholePipeline.

Variable L : PyLib.

Lemma columns_stage c df :
  c ∉ drop_cols -> c ∈ columns df -> c ∈ columns (before_fill L df).
Proof.
  intros Hd Hc. rewrite columns_before_fill. now apply columns_drop_unused.
Qed.

Lemma before_fill_critical df r c :
  c ∈ critical -> c ∈ columns df -> In r (rows (before_fill L df)) -> isna (cell r c) = false.
Proof.
  intros Hcrit Hcol Hr. unfold before_fill in Hr. apply rows_dropna in Hr as [_ Hr].
  apply Hr. apply existing_elem. split; [assumption|].
  rewrite columns_standardize_strings, columns_keep_only_movies.
  apply columns_drop_unused; [|assumption].
  unfold critical in Hcrit.
  repeat (apply elem_of_cons in Hcrit as [->|Hcrit]; [not_listed|]).
  now apply elem_of_nil in Hcrit.
Qed.

Lemma after_fill_present df r c :
  c ∈ c_title :: map fst fill_defaults -> c ∈ columns df ->
  In r (rows (after_fill L df)) -> isna (cell r c) = false.
Proof.
  intros Hc Hcol Hr. rewrite after_fill_rows in Hr. apply in_map_iff in Hr as (r0 & <- & Hr0).
  assert (Hd : c ∉ drop_cols).
  { cbn [map fst fill_defaults] in Hc.
    repeat (apply elem_of_cons in Hc as [->|Hc]; [not_listed|]).
    now apply elem_of_nil in Hc. }
  apply elem_of_cons in Hc as [->|Hc].
  - rewrite apply_all_other.
    + apply (before_fill_critical df); [listed | assumption | assumption].
    + intros Hin. apply fill_plan_names in Hin. revert Hin. not_listed.
  - rewrite (apply_all_at _ r0 c (fillna (VStr (py "Unknown"))) (fill_plan_NoDup _)).
    + apply isna_fillna_str.
    + apply fill_plan_unknown; [assumption | now apply columns_stage].
Qed.

Lemma after_cast_filter_unfold df :
  after_cast_filter L df = remove_unknown_cast L (after_fill L df).
Proof. reflexivity. Qed.

Lemma after_cast_filter_present df r c :
  c ∈ c_title :: map fst fill_defaults -> c ∉ drop_cols -> c ∈ columns df ->
  In r (rows (remove_unknown_cast L (after_fill L df))) -> isna (cell r c) = false.
Proof.
  intros Hf Hd Hcol Hr.
  destruct (decide (c = c_cast)) as [->|Hne].
  - assert (Hcast : c_cast ∈ columns (after_fill L df)).
    { unfold after_fill. rewrite columns_fill_missing. apply columns_stage; assumption. }
    destruct (proj1 (rows_remove_unknown_cast L (after_fill L df) r Hcast) Hr)
      as (r5 & _ & -> & _).
    rewrite cell_set_cell_eq. reflexivity.
  - destruct (rows_from_remove_unknown_cast L (after_fill L df) r Hr) as (r5 & Hr5 & _ & Hs5).
    rewrite Hs5 by (intros H; apply list_elem_of_singleton in H; contradiction).
    exact (after_fill_present df r5 c Hf Hcol Hr5).
Qed.

Lemma text_inputs_not_missing df d7 r c :
  clean_release_year L (after_cast_filter L df) = OK d7 ->
  In r (rows d7) -> c ∈ text_columns ++ [c_listed_in] -> c ∈ columns df ->
  isna (cell r c) = false.
Proof.
  intros H7 Hr Hc Hcol.
  apply clean_release_year_rows in H7 as [_ H7].
  destruct (H7 r Hr) as (r6 & Hr6 & _ & Hsame). clear H7 Hr.
  rewrite after_cast_filter_unfold in Hr6.
  assert (Hy : c ∉ [c_release_year]).
  { clear -Hc. cbn [app text_columns] in Hc.
    repeat (apply elem_of_cons in Hc as [->|Hc]; [not_listed|]).
    apply elem_of_nil in Hc. destruct Hc. }
  assert (Hd : c ∉ drop_cols).
  { clear -Hc. cbn [app text_columns] in Hc.
    repeat (apply elem_of_cons in Hc as [->|Hc]; [not_listed|]).
    apply elem_of_nil in Hc. destruct Hc. }
  assert (Hf : c ∈ c_title :: map fst fill_defaults).
  { clear -Hc. cbn [app text_columns] in Hc. cbn [map fst fill_defaults].
    repeat (apply elem_of_cons in Hc as [->|Hc]; [listed|]).
    apply elem_of_nil in Hc. destruct Hc. }
  rewrite (Hsame c Hy).
  exact (after_cast_filter_present df r6 c Hf Hd Hcol Hr6).
Qed.

(** X13.  When the text normalization runs, none of the columns that it
    rewrites holds a missing value: a missing [title] has removed its
    record, the other columns have been filled, and [cast] has been turned
    into a string.  The branches of [clean_text_basic] and [clean_genres]
    for a missing value are therefore never taken from [main]: the text
    clean is the clean of the printed value, and the genre clean never
    answers with its default. *)
Theorem text_stage_inputs_present (df d7 : DataFrame) (r : Row) (c : pystr) :
  clean_release_year L (after_cast_filter L df) = OK d7 ->
  In r (rows d7) -> c ∈ text_columns ++ [c_listed_in] -> c ∈ columns df ->
  isna (cell r c) = false
  /\ clean_text_basic L (cell r c) = ascii_ignore (clean_core (py_str L (cell r c)))
  /\ clean_genres L (cell r c)
     = str_title L (sub_semicolons (replace_char COMMA SEMICOLON
                                      (str_strip (str_lower L (py_str L (cell r c)))))).
Proof.
  intros H7 Hr Hc Hcol.
  pose proof (text_inputs_not_missing df d7 r c H7 Hr Hc Hcol) as Hna.
  split; [exact Hna|]. unfold clean_text_basic, clean_genres. rewrite Hna. split; reflexivity.
Qed.

Lemma escape_clean v :
  Forall (fun c => c <> COMMA /\ c <> CR /\ c <> LF) v ->
  escape (VStr v) = VStr (str_strip v).
Proof.
  intros H. unfold escape. cbn [escape_cell strip_if_str]. unfold sub_runs.
  rewrite (sub_runs_from_none is_crlf false v).
  - rewrite replace_char_fixed; [reflexivity|].
    eapply Forall_impl; [exact H|]. intros c Hc. apply Hc.
  - eapply Forall_impl; [exact H|]. intros c Hc. cbv beta in Hc. apply not_crlf_iff. tauto.
Qed.

Lemma clean_text_basic_in_ascii v : Forall (fun c => is_ascii c = true) (clean_text_basic L v).
Proof.
  unfold clean_text_basic. destruct (isna v); [constructor | apply ascii_ignore_Forall].
Qed.

(** X9.  What every record of the final table looks like, column by
    column (each when the column exists): [type] is the string ["movie"];
    [release_year] is an integer; each of [title], [director], [cast],
    [country] and [duration] is the basic clean of the value the record had
    before the text stage, trimmed again: a string of 7-bit characters
    without comma, carriage return or newline, whose only whitespace is the
    plain space and which neither starts nor ends with one; [listed_in] is
    a string. *)
Theorem output_schema (df out : DataFrame) (r : Row) :
  main L df = OK out -> In r (rows out) ->
  (c_type ∈ columns df -> cell r c_type = VStr (py "movie"))
  /\ (c_release_year ∈ columns df -> exists z, cell r c_release_year = VInt z)
  /\ (forall c, c ∈ text_columns -> c ∈ columns df ->
        exists v s, isna v = false
          /\ s = str_strip (clean_text_basic L v)
          /\ cell r c = VStr s
          /\ Forall (fun ch => is_ascii ch = true /\ ch <> COMMA /\ ch <> CR /\ ch <> LF
                               /\ (is_space ch = true -> ch = SPACE)) s
          /\ head_ok s /\ last_ok s)
  /\ (c_listed_in ∈ columns df -> exists s, cell r c_listed_in = VStr s).
Proof.
  intros Hmain Hr.
  apply main_stages in Hmain as (d7 & d9 & d10 & H7 & H9 & H10 & ->).
  apply rows_reescape in Hr as (r10 & Hr10 & ->).
  apply sort_stage_rows in H10 as [_ H10]. apply H10 in Hr10.
  apply remove_duplicates_rows in H9 as [_ H9]. apply H9 in Hr10.
  rewrite !cell_escaped.
  assert (Hcols7 : forall c, c ∉ drop_cols -> c ∈ columns df -> c ∈ columns d7).
  { intros c Hd Hc. pose proof (clean_release_year_rows L _ _ H7) as [-> _].
    rewrite columns_after_cast_filter. now apply columns_drop_unused. }
  split; [|split; [|split]].
  - intros Hcol.
    destruct (rows_from_normalized L df d7 H7 r10 Hr10) as (r0 & Hr0 & _ & Hsame).
    rewrite Hsame by not_listed.
    unfold before_fill in Hr0. apply rows_dropna in Hr0 as [Hr0 _].
    apply rows_standardize_strings in Hr0 as (r3 & Hr3 & _ & ->).
    apply rows_keep_only_movies in Hr3 as (r2 & _ & -> & _).
    + rewrite cell_set_cell_eq. vm_compute. reflexivity.
    + apply columns_drop_unused; [not_listed | assumption].
  - intros Hcol.
    destruct (rows_from_normalize_text L d7 r10 Hr10) as (r7 & Hr7 & _ & Hsame).
    rewrite Hsame by not_listed.
    destruct (clean_release_year_ints L _ _
                ltac:(rewrite columns_after_cast_filter;
                      apply columns_drop_unused; [not_listed | exact Hcol]) H7 r7 Hr7)
      as (z & ->).
    exists z. reflexivity.
  - intros c Hc Hcol.
    assert (Hd : c ∉ drop_cols).
    { unfold text_columns in Hc.
      repeat (apply elem_of_cons in Hc as [->|Hc]; [not_listed|]).
      now apply elem_of_nil in Hc. }
    destruct (normalize_text_cleaned L d7 c r10 Hc (Hcols7 c Hd Hcol) Hr10)
      as (r7 & Hr7 & _ & Ht).
    rewrite cell_escaped, Ht.
    pose proof (clean_text_basic_chars L (cell r7 c)) as Hch.
    pose proof (clean_text_basic_in_ascii (cell r7 c)) as Hasc.
    exists (cell r7 c), (str_strip (clean_text_basic L (cell r7 c))).
    split.
    { apply (text_inputs_not_missing df d7 r7 c H7 Hr7); [|assumption].
      apply elem_of_app. now left. }
    split; [reflexivity|]. split.
    { apply escape_clean. eapply Forall_impl; [exact Hch|]. intros ch Hin. cbv beta in Hin. tauto. }
    split; [|split; [apply str_strip_head_ok | apply str_strip_last_ok]].
    apply str_strip_Forall. rewrite Forall_forall in Hch, Hasc. apply Forall_forall.
    intros ch Hin. specialize (Hch ch Hin). specialize (Hasc ch Hin). cbv beta in *. tauto.
  - intros Hcol. rewrite normalize_text_rows in Hr10. unfold genres_step in Hr10.
    rewrite (proj2 (has_column_true _ c_listed_in)) in Hr10.
    + cbn [rows apply_column] in Hr10. apply in_map_iff in Hr10 as (r8 & <- & _).
      rewrite cell_set_cell_eq. unfold escape. cbn [escape_cell strip_if_str]. eauto.
    + cbn [columns]. apply Hcols7; [not_listed | assumption].
Qed.

Lemma standardize_missing v : isna (standardize v) = true <-> missing_or_sentinel v.
Proof.
  unfold missing_or_sentinel, standardize.
  destruct v as [s|z|f| |]; cbn [strip_if_str replace_sentinel isna].
  - destruct (bool_decide_reflect (str_strip s ∈ sentinels)) as [Hs|Hs]; cbn [isna].
    + split; [|reflexivity]. intros _. right. exists s. auto.
    + split; [discriminate|]. intros [H|(s' & [= <-] & H)]; [discriminate | contradiction].
  - split; [discriminate|]. intros [H|(s' & H & _)]; discriminate.
  - split; [auto|]. intros [H|(s' & H & _)]; [exact H | discriminate].
  - split; [auto|]. intros _. reflexivity.
  - split; [auto|]. intros _. reflexivity.
Qed.

Lemma normalize_text_row df r' :
  In r' (rows (normalize_text L df)) ->
  exists r, In r (rows df) /\ label r' = label r
    /\ (forall c, c ∉ text_columns ++ [c_listed_in] -> cell r' c = cell r c)
    /\ (forall c, c ∈ text_columns -> c ∈ columns df ->
          cell r' c = VStr (clean_text_basic L (cell r c))).
Proof.
  rewrite normalize_text_rows. intros Hr'.
  assert (Hplan : forall r c, c ∈ text_columns -> c ∈ columns df ->
                    cell (apply_all (text_plan L df) r) c = VStr (clean_text_basic L (cell r c))).
  { intros r c Hc Hcol.
    apply (apply_all_at (text_plan L df) r c (fun v => VStr (clean_text_basic L v))).
    - unfold text_plan. rewrite map_map. cbn [fst]. rewrite map_id.
      unfold existing. rewrite <- (map_id (List.filter _ _)).
      apply (NoDup_map_filter id (has_column df) text_columns).
      rewrite map_id. apply (bool_decide_unpack (NoDup _)). vm_compute. exact I.
    - unfold text_plan. apply in_map_iff. exists c. split; [reflexivity|].
      apply list_elem_of_In, existing_elem. tauto. }
  assert (Hother : forall r c, c ∉ text_columns ++ [c_listed_in] ->
                     cell (apply_all (text_plan L df) r) c = cell r c).
  { intros r c Hc. apply apply_all_other. rewrite text_plan_names.
    intros [Hin _]. apply Hc, elem_of_app. now left. }
  assert (Hne : forall c, c ∈ text_columns -> c_listed_in <> c).
  { intros c Hc <-. revert Hc. not_listed. }
  unfold genres_step in Hr'. destruct (has_column _ c_listed_in); cbn [rows apply_column] in Hr'.
  - apply in_map_iff in Hr' as (r1 & <- & Hr1).
    apply in_map_iff in Hr1 as (r & <- & Hr). exists r. split; [assumption|].
    split; [apply apply_all_label|]. split.
    + intros c Hc. rewrite cell_set_cell_ne; [now apply Hother|].
      intros <-. apply Hc, elem_of_app. right. apply list_elem_of_singleton. reflexivity.
    + intros c Hc Hcol. rewrite cell_set_cell_ne by now apply Hne. now apply Hplan.
  - apply in_map_iff in Hr' as (r & <- & Hr). exists r. split; [assumption|].
    split; [apply apply_all_label|]. split; [now apply Hother | now apply Hplan].
Qed.

(** Where a record of the final table comes from: the record of the input
    with its label, seen when the missing values are handled. *)
Lemma output_row_source df out r' :
  main L df = OK out -> In r' (rows out) ->
  exists r r0, In r (rows df) /\ label r' = label r
    /\ In r0 (rows (before_fill L df))
    /\ (forall c, c ∉ drop_cols -> c <> c_type -> cell r0 c = standardize (cell r c))
    /\ (forall c, c ∉ late_columns -> cell r' c = escape (cell r0 c))
    /\ (c_title ∈ columns df ->
          cell r' c_title = escape (VStr (clean_text_basic L (cell r0 c_title)))).
Proof.
  intros Hmain Hr.
  apply main_stages in Hmain as (d7 & d9 & d10 & H7 & H9 & H10 & ->).
  apply rows_reescape in Hr as (r10 & Hr10 & ->).
  apply sort_stage_rows in H10 as [_ H10]. apply H10 in Hr10.
  apply remove_duplicates_rows in H9 as [_ H9]. apply H9 in Hr10.
  clear H9 H10 d9 d10.
  destruct (normalize_text_row d7 r10 Hr10) as (r7 & Hr7 & Hl7 & Hs7 & Ht7).
  pose proof (clean_release_year_rows L _ _ H7) as [Hc7 Hrows7].
  destruct (Hrows7 r7 Hr7) as (r6 & Hr6 & Hl6 & Hs6).
  destruct (rows_from_after_cast_filter L df r6 Hr6) as (r0 & Hr0 & Hl0 & Hs0).
  assert (Hr0' := Hr0).
  unfold before_fill in Hr0'. apply rows_dropna in Hr0' as [Hr0' _].
  apply rows_standardize_strings in Hr0' as (r3 & Hr3 & Hl3 & Hs3).
  destruct (rows_from_keep_only_movies L _ r3 Hr3) as (r2 & Hr2 & Hl2 & Hs2).
  destruct (rows_from_drop_unused df r2 Hr2) as (r1 & Hr1 & Hl1 & Hs1).
  exists r1, r0. split; [exact Hr1|]. split; [cbn [label]; congruence|].
  split; [exact Hr0|]. split; [|split].
  - intros c Hd Ht. rewrite Hs3. f_equal. rewrite Hs2.
    + exact (Hs1 c Hd).
    + intros H. apply list_elem_of_singleton in H. contradiction.
  - intros c Hc. rewrite cell_escaped. f_equal.
    unfold late_columns in Hc. rewrite !elem_of_app in Hc.
    rewrite Hs7, Hs6, Hs0; [reflexivity| | |]; rewrite ?elem_of_app; tauto.
  - intros Hcol. rewrite cell_escaped. f_equal.
    rewrite Ht7.
    + rewrite Hs6, Hs0; [reflexivity| |]; not_listed.
    + listed.
    + rewrite Hc7, columns_after_cast_filter. apply columns_drop_unused; [not_listed | exact Hcol].
Qed.

(** C5 (amended).  Every record of the final table is the record of the
    input with the same label, and in that record neither [show_id] nor
    [title] was missing or one of the sentinel literals (each when the
    column exists): [show_id] is not missing in the output, [title] is a
    string, the clean of the trimmed title when that was a string; the
    string can be empty.  With distinct labels, a record of the input whose
    [show_id] or [title] is missing or a sentinel is absent from the
    output. *)
Theorem required_fields_present (df out : DataFrame) :
  main L df = OK out ->
  (forall r', In r' (rows out) ->
     exists r, In r (rows df) /\ label r' = label r
       /\ (c_show_id ∈ columns df ->
             ~ missing_or_sentinel (cell r c_show_id) /\ isna (cell r' c_show_id) = false)
       /\ (c_title ∈ columns df ->
             ~ missing_or_sentinel (cell r c_title)
             /\ (exists s', cell r' c_title = VStr s')
             /\ forall s, cell r c_title = VStr s ->
                  cell r' c_title
                  = VStr (str_strip (clean_text_basic L (VStr (str_strip s))))))
  /\ (NoDup (labels df) ->
      forall r, In r (rows df) ->
        (c_show_id ∈ columns df /\ missing_or_sentinel (cell r c_show_id))
        \/ (c_title ∈ columns df /\ missing_or_sentinel (cell r c_title)) ->
        ~ In (label r) (labels out)).
Proof.
  intros Hmain.
  assert (Hrec : forall r', In r' (rows out) ->
     exists r, In r (rows df) /\ label r' = label r
       /\ (c_show_id ∈ columns df ->
             ~ missing_or_sentinel (cell r c_show_id) /\ isna (cell r' c_show_id) = false)
       /\ (c_title ∈ columns df ->
             ~ missing_or_sentinel (cell r c_title)
             /\ (exists s', cell r' c_title = VStr s')
             /\ forall s, cell r c_title = VStr s ->
                  cell r' c_title
                  = VStr (str_strip (clean_text_basic L (VStr (str_strip s)))))).
  { intros r' Hr'.
    destruct (output_row_source df out r' Hmain Hr') as (r & r0 & Hr & Hl & Hr0 & Hstd & Hesc & Ht).
    exists r. split; [exact Hr|]. split; [exact Hl|]. split.
    - intros Hcol.
      assert (Hna : isna (cell r0 c_show_id) = false)
        by (apply (before_fill_critical df); [listed | assumption | assumption]).
      split.
      + intros Hm. apply standardize_missing in Hm.
        rewrite <- Hstd in Hm; [congruence | not_listed | vm_compute; discriminate].
      + rewrite Hesc by not_listed. now rewrite escape_isna.
    - intros Hcol.
      assert (Hna : isna (cell r0 c_title) = false)
        by (apply (before_fill_critical df); [listed | assumption | assumption]).
      assert (Hstd' : cell r0 c_title = standardize (cell r c_title))
        by (apply Hstd; [not_listed | vm_compute; discriminate]).
      assert (Hclean : forall v, escape (VStr (clean_text_basic L v))
                                 = VStr (str_strip (clean_text_basic L v))).
      { intros v. apply escape_clean.
        eapply Forall_impl; [apply clean_text_basic_chars|].
        intros ch Hch. cbv beta in Hch. tauto. }
      split; [|split].
      + intros Hm. apply standardize_missing in Hm. congruence.
      + rewrite (Ht Hcol), Hclean. eauto.
      + intros s Hs. rewrite (Ht Hcol), Hclean, Hstd', Hs.
        rewrite Hstd', Hs in Hna. unfold standardize in *.
        cbn [strip_if_str replace_sentinel] in *.
        destruct (bool_decide (str_strip s ∈ sentinels)); [discriminate Hna | reflexivity]. }
  split; [exact Hrec|].
  intros Hnd r Hr Hmiss Hin.
  apply in_map_iff in Hin as (r' & Hl' & Hr').
  destruct (Hrec r' Hr') as (r1 & Hr1 & Hl1 & Hid & Htitle).
  assert (r1 = r) as ->
    by (apply (label_unique (rows df)); [exact Hnd | assumption | assumption | congruence]).
  destruct Hmiss as [[Hcol Hm]|[Hcol Hm]].
  - now apply (proj1 (Hid Hcol)).
  - now apply (proj1 (Htitle Hcol)).
Qed.

(** X11.  The columns that no stage names (every column other than the
    three dropped ones, [type] and the columns of the later stages; for
    instance [show_id]) reach the final table through the two string passes
    only: each record of the output is a record of the input, with the same
    label, whose value has been standardized (trimmed, sentinels turned into
    [pd.NA]) and then escaped; a string is exactly that string, a number is
    that number, whichever way it is stored, and a missing value is
    missing. *)
Theorem untouched_columns_pass_through (df out : DataFrame) (r' : Row) :
  main L df = OK out -> In r' (rows out) ->
  exists r, In r (rows df) /\ label r' = label r
    /\ forall c, untouched_column c ->
         retyped (escape (standardize (cell r c))) (cell r' c)
         /\ forall s, cell r c = VStr s -> str_strip s ∉ sentinels ->
              cell r' c
              = VStr (str_strip (replace_char COMMA SPACE (sub_runs is_crlf (str_strip s)))).
Proof.
  intros Hmain Hr.
  destruct (output_row_source df out r' Hmain Hr) as (r & r0 & Hr1 & Hl & _ & Hstd & Hesc & _).
  exists r. split; [exact Hr1|]. split; [exact Hl|].
  intros c (Hd & Ht & Hlate).
  assert (E : cell r' c = escape (standardize (cell r c)))
    by (rewrite (Hesc c Hlate), (Hstd c Hd Ht); reflexivity).
  split; [rewrite E; apply retyped_refl|].
  intros s Hs Hsent. rewrite E, Hs. unfold standardize, escape.
  cbn [strip_if_str replace_sentinel]. rewrite bool_decide_eq_false_2 by exact Hsent.
  reflexivity.
Qed.

Lemma columns_drop_unused_filter df :
  columns (drop_unused_columns df)
  = List.filter (fun c => negb (bool_decide (c ∈ drop_cols))) (columns df).
Proof.
  unfold drop_unused_columns, drop_columns. cbn [columns].
  apply filter_ext_in. intros c Hc. f_equal. apply bool_decide_ext.
  rewrite existing_elem. split; [tauto|].
  intros H. split; [exact H | now apply list_elem_of_In].
Qed.

(** X14.  No stage after the projection adds, removes or reorders a
    column: the header of the final table is the header of the input
    without [description], [rating] and [date_added], in the same order. *)
Theorem output_columns (df out : DataFrame) :
  main L df = OK out ->
  columns out = List.filter (fun c => negb (bool_decide (c ∈ drop_cols))) (columns df).
Proof.
  intros Hmain.
  apply main_stages in Hmain as (d7 & d9 & d10 & H7 & H9 & H10 & ->).
  apply sort_stage_rows in H10 as [H10 _].
  apply remove_duplicates_rows in H9 as [H9 _].
  apply clean_release_year_rows in H7 as [H7 _].
  unfold reescape. rewrite !columns_applymap, H10, H9, columns_normalize_text, H7.
  rewrite columns_after_cast_filter. apply columns_drop_unused_filter.
Qed.

Lemma empty_eta df : rows df = [] -> df = mkDF (columns df) [].
Proof. destruct df as [cols rs]. cbn. now intros ->. Qed.

Lemma stages_on_empty cols :
  keep_only_movies L (mkDF cols []) = mkDF cols []
  /\ standardize_strings (mkDF cols []) = mkDF cols []
  /\ handle_missing (mkDF cols []) = mkDF cols []
  /\ remove_unknown_cast L (mkDF cols []) = mkDF cols []
  /\ clean_release_year L (mkDF cols []) = OK (mkDF cols [])
  /\ normalize_text L (mkDF cols []) = mkDF cols []
  /\ remove_duplicates (mkDF cols []) = OK (mkDF cols [])
  /\ reescape (mkDF cols []) = mkDF cols [].
Proof.
  repeat split.
  - unfold keep_only_movies. destruct (has_column _ c_type); reflexivity.
  - unfold handle_missing. rewrite fill_missing_rows. reflexivity.
  - unfold remove_unknown_cast. destruct (has_column _ c_cast); reflexivity.
  - unfold clean_release_year. destruct (has_column _ c_release_year); reflexivity.
  - rewrite normalize_text_rows. unfold genres_step. cbn [rows map columns].
    destruct (has_column _ c_listed_in); reflexivity.
  - unfold remove_duplicates, drop_duplicates, df_empty. cbn [rows columns].
    destruct cols; reflexivity.
Qed.

(** X8.  On a table without records nothing raises, not even the
    deduplication without key column, and the median falls back to its
    default: the pipeline returns the table with the three unused columns
    dropped ([argsort] returning no position for no key). *)
Theorem empty_table_passes (df : DataFrame) :
  rows df = [] -> argsort_quicksort L [] = [] ->
  main L df = OK (drop_unused_columns df).
Proof.
  intros Hrows Harg.
  assert (Hd : rows (drop_unused_columns df) = []).
  { unfold drop_unused_columns, drop_columns. cbn [rows]. now rewrite Hrows. }
  apply empty_eta in Hd. revert Hd.
  generalize (columns (drop_unused_columns df)). intros cols Hd.
  unfold main. cbv zeta. rewrite Hd.
  destruct (stages_on_empty cols) as (H3 & H4 & H5 & H6 & H7 & H8 & H9 & H11).
  rewrite H3, H4, H5, H6, H7. cbn [mbind result_bind]. rewrite H8, H9.
  cbn [mbind result_bind]. unfold sort_and_format, sort_stage.
  rewrite existing_sort_columns.
  destruct (has_column _ c_release_year), (has_column _ c_title);
    cbn [app sort_values rows map columns]; rewrite ?Harg; cbn [mbind result_bind];
    rewrite ?H11; reflexivity.
Qed.

End WholePipeline.

(** * Further examples *)

(** The cast to [int64] at the ends of its range: a float above it is cast
    to [-2^63], an unsigned integer wraps. *)
Lemma huge_float_year_cast :
  grid_of (clean_release_year ref_lib huge_float_years)
  = OK [ (0%nat, [VInt (- 2 ^ 63)]); (1%nat, [VInt 3]); (2%nat, [VInt 5]) ].
Proof. vm_compute. reflexivity. Qed.

Lemma unsigned_year_wraps :
  grid_of (clean_release_year ref_lib unsigned_years)
  = OK [ (0%nat, [VInt (- 2 ^ 63)]); (1%nat, [VInt 2001]) ].
Proof. vm_compute. reflexivity. Qed.

(** X4 on the catalogue: record 4, whose director is the sentinel ["N/A"]. *)
Lemma standardized_cells_catalogue :
  In standardized_record (rows (standardize_strings catalogue))
  /\ cell standardized_record c_director = VNA
  /\ (forall c s, cells standardized_record !! c = Some (VStr s) ->
         str_strip s = s /\ s ∉ sentinels).
Proof.
  assert (H : In standardized_record (rows (standardize_strings catalogue)))
    by (apply nth_In; vm_compute; lia).
  split; [exact H|]. split; [vm_compute; reflexivity|].
  exact (proj1 (standardized_cells catalogue standardized_record H)).
Defined.

(** X5 on the catalogue: record 4 has no country. *)
Lemma fill_missing_defaults_catalogue :
  In filled_record (rows (fill_missing catalogue))
  /\ cell filled_record c_country = VStr (py "Unknown")
  /\ (forall c, c ∈ map fst fill_defaults -> c ∈ columns catalogue ->
         isna (cell filled_record c) = false).
Proof.
  assert (H : In filled_record (rows (fill_missing catalogue)))
    by (apply nth_In; vm_compute; lia).
  split; [exact H|]. split; [vm_compute; reflexivity|].
  exact (proj1 (fill_missing_defaults catalogue filled_record H)).
Defined.

(** X6 on the shelf, whose records 0 and 2 have the same key. *)
Lemma remove_duplicates_first_occurrences_shelf :
  existing shelf dedup_columns <> []
  /\ (to_grid <$> remove_duplicates shelf)
     = OK [ (0%nat, [str "B"; VInt 2000]); (1%nat, [str "A"; VInt 2001]);
            (3%nat, [str "A"; VInt 1999]) ]
  /\ exists df', remove_duplicates shelf = OK df' /\ sublist (rows df') (rows shelf).
Proof.
  assert (H : existing shelf dedup_columns <> []) by (vm_compute; discriminate).
  split; [exact H|]. split; [vm_compute; reflexivity|].
  destruct (remove_duplicates_first_occurrences shelf H) as (df' & H1 & _ & H2 & _).
  exists df'. split; assumption.
Defined.

(** X7 on a table whose second year is infinite. *)
Lemma infinite_year_raises_example :
  c_release_year ∈ columns infinite_year
  /\ In infinite_record (rows infinite_year)
  /\ to_numeric ref_lib (cell infinite_record c_release_year) = NumFloat (S754_infinity false)
  /\ exists e, clean_release_year ref_lib infinite_year = Raise e.
Proof.
  assert (H1 : c_release_year ∈ columns infinite_year) by listed.
  assert (H2 : In infinite_record (rows infinite_year)) by (apply nth_In; vm_compute; lia).
  assert (H3 : to_numeric ref_lib (cell infinite_record c_release_year)
               = NumFloat (S754_infinity false)) by (vm_compute; reflexivity).
  split; [exact H1|]. split; [exact H2|]. split; [exact H3|].
  exact (infinite_year_raises ref_lib infinite_year infinite_record false H1 H2 H3).
Defined.

(** X8 on a header without record and without key column. *)
Lemma empty_table_passes_header_only :
  rows header_only = [] /\ argsort_quicksort ref_lib [] = []
  /\ existing header_only dedup_columns = []
  /\ main ref_lib header_only = OK (mkDF [c_show_id] []).
Proof.
  assert (H1 : rows header_only = []) by reflexivity.
  assert (H2 : argsort_quicksort ref_lib [] = []) by (vm_compute; reflexivity).
  split; [exact H1|]. split; [exact H2|]. split; [vm_compute; reflexivity|].
  rewrite (empty_table_passes ref_lib header_only H1 H2). vm_compute. reflexivity.
Defined.

(** X9 on the catalogue: its first record in the output. *)
Lemma output_schema_catalogue :
  main ref_lib catalogue = OK catalogue_out /\ In first_out_record (rows catalogue_out)
  /\ cell first_out_record c_type = VStr (py "movie")
  /\ exists z, cell first_out_record c_release_year = VInt z.
Proof.
  assert (H1 : main ref_lib catalogue = OK catalogue_out) by (vm_compute; reflexivity).
  assert (H2 : In first_out_record (rows catalogue_out)) by (apply nth_In; vm_compute; lia).
  split; [exact H1|]. split; [exact H2|].
  destruct (output_schema ref_lib catalogue catalogue_out first_out_record H1 H2)
    as (Ht & Hy & _).
  split; [apply Ht | apply Hy]; listed.
Defined.

(** X11 on the catalogue: the [show_id] of the first record in the output. *)
Lemma untouched_columns_pass_through_catalogue :
  main ref_lib catalogue = OK catalogue_out /\ In first_out_record (rows catalogue_out)
  /\ untouched_column c_show_id
  /\ exists r, In r (rows catalogue) /\ label first_out_record = label r
       /\ retyped (escape (standardize (cell r c_show_id))) (cell first_out_record c_show_id).
Proof.
  assert (H1 : main ref_lib catalogue = OK catalogue_out) by (vm_compute; reflexivity).
  assert (H2 : In first_out_record (rows catalogue_out)) by (apply nth_In; vm_compute; lia).
  assert (H3 : untouched_column c_show_id).
  { split; [not_listed|]. split; [vm_compute; discriminate | not_listed]. }
  split; [exact H1|]. split; [exact H2|]. split; [exact H3|].
  destruct (untouched_columns_pass_through ref_lib catalogue catalogue_out first_out_record H1 H2)
    as (r & Hr & Hl & Hc).
  exists r. split; [exact Hr|]. split; [exact Hl | exact (proj1 (Hc c_show_id H3))].
Defined.

(** C5 on the catalogue: record 3 has no title and is absent from the
    output. *)
Lemma required_fields_present_catalogue :
  main ref_lib catalogue = OK catalogue_out
  /\ NoDup (labels catalogue) /\ In untitled_record (rows catalogue)
  /\ missing_or_sentinel (cell untitled_record c_title)
  /\ ~ In 3%nat (labels catalogue_out)
  /\ forall r', In r' (rows catalogue_out) ->
       exists r, In r (rows catalogue) /\ label r' = label r
         /\ ~ missing_or_sentinel (cell r c_title)
         /\ isna (cell r' c_show_id) = false.
Proof.
  assert (H : main ref_lib catalogue = OK catalogue_out) by (vm_compute; reflexivity).
  assert (Hnd : NoDup (labels catalogue))
    by (apply (bool_decide_unpack (NoDup _)); vm_compute; exact I).
  assert (Hr : In untitled_record (rows catalogue)) by (apply nth_In; vm_compute; lia).
  assert (Hm : missing_or_sentinel (cell untitled_record c_title)) by (left; vm_compute; reflexivity).
  assert (Hid : c_show_id ∈ columns catalogue) by listed.
  assert (Ht : c_title ∈ columns catalogue) by listed.
  destruct (required_fields_present ref_lib catalogue catalogue_out H) as [Hrec Hgone].
  split; [exact H|]. split; [exact Hnd|]. split; [exact Hr|]. split; [exact Hm|]. split.
  - exact (Hgone Hnd untitled_record Hr (or_intror (conj Ht Hm))).
  - intros r' Hr'. destruct (Hrec r' Hr') as (r & Hin & Hl & Hs & Htitle).
    exists r. split; [exact Hin|]. split; [exact Hl|].
    split; [exact (proj1 (Htitle Ht)) | exact (proj2 (Hs Hid))].
Defined.

(** X13 on the catalogue: the title of its first record at the text stage. *)
Lemma text_stage_inputs_present_catalogue :
  clean_release_year ref_lib (after_cast_filter ref_lib catalogue) = OK catalogue_numeric
  /\ In numeric_record (rows catalogue_numeric)
  /\ isna (cell numeric_record c_title) = false.
Proof.
  assert (H1 : clean_release_year ref_lib (after_cast_filter ref_lib catalogue)
               = OK catalogue_numeric) by (vm_compute; reflexivity).
  assert (H2 : In numeric_record (rows catalogue_numeric)) by (apply nth_In; vm_compute; lia).
  split; [exact H1|]. split; [exact H2|].
  apply (text_stage_inputs_present ref_lib catalogue catalogue_numeric numeric_record c_title H1 H2);
    listed.
Defined.


(** X14 on the catalogue, which has a [rating] column. *)
Lemma output_columns_catalogue :
  main ref_lib catalogue = OK catalogue_out
  /\ columns catalogue_out
     = [c_show_id; c_type; c_title; c_director; c_cast; c_country; c_release_year;
        c_duration; c_listed_in].
Proof.
  assert (H : main ref_lib catalogue = OK catalogue_out) by (vm_compute; reflexivity).
  split; [exact H|].
  rewrite (output_columns ref_lib catalogue catalogue_out H). vm_compute. reflexivity.
Defined.
